(** * Interface-index assignment for definition files

  A shallow embedding of [addInterfaceIndexes]
  (packages/@css-blocks/core/src/BlockParser/features/add-interface-indexes.ts)
  and the properties of it that the specification states.

  The function walks the rules of a parsed definition file, reads the
  [block-interface-index] declaration of every rule, sets that index on the
  style node the rule's selectors resolve to, and finally reports every
  style node of the block whose index was not set.  It has no result: it
  mutates the style nodes of the block, appends to the block's error list,
  and may throw. *)

From Stdlib Require Import Ascii.
From stdpp Require Import numbers list strings.

Local Open Scope Z_scope.

(** ** JavaScript values used by the function *)

Module JS.

(** The Number values [parseInt] can return: [NaN], an integer that is
    the value of a double, or an infinity ([Infinity true] is the negative
    one).  [-0] is not told apart from [0], as [Array.prototype.includes]
    does not either. *)
Inductive number :=
| NaN
| Num (z : Z)
| Infinity (negative : bool).

#[global] Instance number_eq_dec : EqDecision number.
Proof. solve_decision. Defined.

Definition isNaN (n : number) : bool :=
  match n with
  | NaN => true
  | Num _ | Infinity _ => false
  end.

(** SameValueZero on the values above: [NaN] is the same value as [NaN]. *)
Definition sameValueZero (x y : number) : bool :=
  match x, y with
  | NaN, NaN => true
  | Num a, Num b => a =? b
  | Infinity a, Infinity b => Bool.eqb a b
  | _, _ => false
  end.

(** [Array.prototype.includes]: is some element SameValueZero to [x]. *)
Fixpoint includes (l : list number) (x : number) : bool :=
  match l with
  | [] => false
  | y :: l' => sameValueZero y x || includes l' x
  end.

(** The Number value for an integer: the integer itself below 2^53 in
    magnitude; above, the nearest integer with 53 significant bits, the
    even one of two that are as near; an infinity from 2^1024 on. *)
Definition roundToDouble (n : Z) : number :=
  let a := Z.abs n in
  if a <? 2 ^ 53 then Num n
  else
    let e := Z.log2 a - 52 in
    let q := a / 2 ^ e in
    let r := a mod 2 ^ e in
    let half := 2 ^ (e - 1) in
    let q' := if (half <? r) || ((r =? half) && Z.odd q) then q + 1 else q in
    let m := q' * 2 ^ e in
    if 2 ^ 1024 <=? m then Infinity (n <? 0) else Num (Z.sgn n * m).

(** Strings are sequences of code units; a code unit is an [ascii], so
    only the code units below 256 are represented. *)
Definition code (c : ascii) : Z := Z.of_N (N_of_ascii c).

(** WhiteSpace and LineTerminator code units: TAB, LF, VT, FF, CR, SP and
    NBSP. *)
Definition isWhiteSpace (c : ascii) : bool :=
  let n := code c in
  (n =? 9) || (n =? 10) || (n =? 11) || (n =? 12) || (n =? 13)
  || (n =? 32) || (n =? 160).

Fixpoint trimStart (s : string) : string :=
  match s with
  | String c s' => if isWhiteSpace c then trimStart s' else s
  | EmptyString => s
  end.

(** The value of a code unit as a digit: [0-9], then [a-z] or [A-Z] for
    10 to 35. *)
Definition digitValue (c : ascii) : option Z :=
  let n := code c in
  if (48 <=? n) && (n <=? 57) then Some (n - 48)
  else if (97 <=? n) && (n <=? 122) then Some (n - 87)
  else if (65 <=? n) && (n <=? 90) then Some (n - 55)
  else None.

Definition radixDigit (R : Z) (c : ascii) : option Z :=
  match digitValue c with
  | Some d => if d <? R then Some d else None
  | None => None
  end.

(** The digits of the longest prefix of [s] made of radix-[R] digits. *)
Fixpoint digitsPrefix (R : Z) (s : string) : list Z :=
  match s with
  | String c s' =>
      match radixDigit R c with
      | Some d => d :: digitsPrefix R s'
      | None => []
      end
  | EmptyString => []
  end.

Definition mathInt (R : Z) (ds : list Z) : Z :=
  fold_left (fun acc d => acc * R + d) ds 0.

Definition stripSign (s : string) : Z * string :=
  match s with
  | String c s' =>
      if Ascii.eqb c "-" then (-1, s')
      else if Ascii.eqb c "+" then (1, s')
      else (1, s)
  | EmptyString => (1, s)
  end.

Definition stripHexPrefix (s : string) : option string :=
  match s with
  | String "0"%char (String "x"%char s') => Some s'
  | String "0"%char (String "X"%char s') => Some s'
  | _ => None
  end.

(** [parseInt(string, radix)] of ECMAScript, for a radix that is an
    integer in the int32 range.  The mathematical integer of the digits is
    taken exactly (ECMAScript lets an implementation approximate it after
    the 20th significant digit in base 10), then rounded to a Number. *)
Definition parseInt (string : string) (radix : Z) : number :=
  let '(sign, str) := stripSign (trimStart string) in
  if negb (radix =? 0) && ((radix <? 2) || (36 <? radix)) then NaN
  else
    let stripPrefix := (radix =? 0) || (radix =? 16) in
    let '(R, str) :=
      match (if stripPrefix then stripHexPrefix str else None) with
      | Some str' => (16, str')
      | None => (if radix =? 0 then 10 else radix, str)
      end in
    match digitsPrefix R str with
    | [] => NaN
    | ds => roundToDouble (sign * mathInt R ds)
    end.

End JS.

Export JS.

(** ** The parsed document (postcss) *)

Module postcss.

Record Position := { line : nat; column : nat }.

(** A declaration [prop: value], with the place in the input it was
    parsed from, if any. *)
Record Declaration := {
  prop : string;
  value : string;
  source : option (Position * Position)
}.

(** The nodes below a root.  A rule and an at-rule are containers. *)
#[warnings="-register-all"]
Inductive ChildNode :=
| Decl (d : Declaration)
| Rule (selector : string) (nodes : list ChildNode)
| AtRule (name params : string) (nodes : list ChildNode)
| Comment (text : string).

Record Root := { children : list ChildNode }.

Definition nodesOf (n : ChildNode) : list ChildNode :=
  match n with
  | Rule _ ns | AtRule _ _ ns => ns
  | Decl _ | Comment _ => []
  end.

(** [Container.walk]: every descendant, each child before its own
    descendants and before its next sibling. *)
Fixpoint descendants (n : ChildNode) : list ChildNode :=
  match n with
  | Rule _ ns | AtRule _ _ ns =>
      flat_map (fun c => c :: descendants c) ns
  | Decl _ | Comment _ => []
  end.

Definition walk (ns : list ChildNode) : list ChildNode :=
  flat_map (fun c => c :: descendants c) ns.

Definition isRule (n : ChildNode) : bool :=
  match n with
  | Rule _ _ => true
  | _ => false
  end.

(** [root.walkRules(callback)] calls back on the rules of [walk], in
    order. *)
Definition walkRules (root : Root) : list ChildNode :=
  List.filter isRule (walk (children root)).

Definition declsNamed (p : string) (n : ChildNode) : list Declaration :=
  match n with
  | Decl d => if String.eqb (prop d) p then [d] else []
  | _ => []
  end.

(** [container.walkDecls(prop, callback)] calls back on the declarations
    of [walk] whose property is [prop], in order. *)
Definition walkDecls (p : string) (container : ChildNode)
  : list Declaration :=
  flat_map (declsNamed p) (walk (nodesOf container)).

End postcss.

Export postcss.

(** ** Errors and source locations *)

(** Where an error is attributed: a range in a file, or the file alone. *)
Inductive SourceLocation :=
| SourceRange (filename : string) (start end_ : Position)
| SourceFile (filename : string).

Record CssBlockError := {
  message : string;
  location : SourceLocation
}.

(** ** The block and its style nodes *)

(** A style node: its source representation, its interface index and the
    flag telling that the index was set again. *)
Record Style := {
  asSource : string;
  index : number;
  wasIndexReset : bool
}.

(** Modelled from the spec: the [index] setter of a style node (the
    BlockTree classes are not part of the sources at hand).  Assigning
    [node.index = v] stores [v] and marks the node as "index was reset". *)
Definition setIndex (v : number) (s : Style) : Style :=
  {| asSource := asSource s; index := v; wasIndexReset := true |}.

(** A block: its own style nodes, in the order in which [block.all]
    enumerates them, its accumulated errors, and the block it inherits from,
    if any.  A style node is an object shared between the block and whoever
    resolved a selector to it; it is referred to by its position in
    [styles]. *)
#[warnings="-register-all"]
Inductive Block := mkBlock {
  styles : list Style;
  errors : list CssBlockError;
  base : option Block
}.

Abbreviation StyleRef := nat (only parsing).

(** Modelled from the spec: [block.all(shallow)] of BlockTree (not part of
    the sources at hand) enumerates the style nodes of a block, with a flag
    for the inherited ones.  The nodes of the block itself, its implicit
    root among them, come first; unless [shallow] is set, the nodes of the
    blocks it inherits from follow. *)
Fixpoint all (shallow : bool) (b : Block) : list Style :=
  match b with
  | mkBlock own _ inherited =>
      if shallow then own
      else
        own ++
        match inherited with
        | Some parent => all shallow parent
        | None => []
        end
  end.

(** The result of [getStyleTargets]: references to the matching attribute
    and class style nodes. *)
Record StyleTargets := {
  blockAttrs : list StyleRef;
  blockClasses : list StyleRef
}.

(** A parsed selector of a rule: its key, of the type [K] of compound
    selectors, and its rendering as a string. *)
Record ParsedSelector (K : Type) := {
  key : K;
  toString : string
}.
Arguments key {K} p.
Arguments toString {K} p.

Definition isQuote (c : ascii) : bool :=
  (code c =? 34) || (code c =? 39).

(** [s] without its last character, when that character is [q]. *)
Fixpoint dropLastIf (q : ascii) (s : string) : option string :=
  match s with
  | EmptyString => None
  | String c EmptyString => if Ascii.eqb c q then Some EmptyString else None
  | String c s' => String c <$> dropLastIf q s'
  end.

(** Modelled from the spec: [stripQuotes] of BlockParser/utils (not part of
    the sources at hand) strips the quote characters surrounding the raw
    value: a value wrapped in a pair of double or of single quotes loses
    them, any other value is returned as it is. *)
Definition stripQuotes (s : string) : string :=
  match s with
  | String q s' => if isQuote q then default s (dropLastIf q s') else s
  | EmptyString => s
  end.

(** ** Effects: mutation of the block and exceptions *)

(** What the function mutates while it runs: the block it was given and its
    local array [foundIndexes]. *)
Record State := {
  block : Block;
  foundIndexes : list number
}.

(** A JavaScript [Error], by its message. *)
Definition Error := string.

Inductive completion (A : Type) :=
| Normal (a : A)
| Throw (e : Error).
Arguments Normal {A} a.
Arguments Throw {A} e.

(** A computation returns or throws, and leaves a state behind in both
    cases: nothing is undone by an exception. *)
Definition Eff (A : Type) : Type := State -> completion A * State.

#[global] Instance Eff_ret : MRet Eff :=
  fun A a st => (Normal a, st).

#[global] Instance Eff_bind : MBind Eff :=
  fun A B f m st =>
    match m st with
    | (Normal a, st') => f a st'
    | (Throw e, st') => (Throw e, st')
    end.

Definition throw {A} (e : Error) : Eff A :=
  fun st => (Throw e, st).

Definition skip : Eff unit := mret tt.

(** [array.forEach(callback)], and the walks of postcss, over the elements
    they visit. *)
Fixpoint forEach {A} (l : list A) (callback : A -> Eff unit) : Eff unit :=
  match l with
  | [] => skip
  | x :: l' => callback x ;; forEach l' callback
  end.

(** [block.addError(e)]. *)
Definition addError (e : CssBlockError) : Eff unit :=
  fun st =>
    (Normal tt,
     {| block := {| styles := styles (block st);
                    errors := errors (block st) ++ [e];
                    base := base (block st) |};
        foundIndexes := foundIndexes st |}).

(** [foundIndexes.push(v)]. *)
Definition push (v : number) : Eff unit :=
  fun st =>
    (Normal tt,
     {| block := block st; foundIndexes := foundIndexes st ++ [v] |}).

Definition getFoundIndexes : Eff (list number) :=
  fun st => (Normal (foundIndexes st), st).

Definition getBlock : Eff Block :=
  fun st => (Normal (block st), st).

(** [node.index = v], for the style node that [r] refers to. *)
Definition assignIndex (r : StyleRef) (v : number) : Eff unit :=
  fun st =>
    (Normal tt,
     {| block := {| styles := alter (setIndex v) r (styles (block st));
                    errors := errors (block st);
                    base := base (block st) |};
        foundIndexes := foundIndexes st |}).

(** The errors that the computation [m] appends to the block when it is run
    from [st]. *)
Definition errorsAddedBy {A} (m : Eff A) (st : State) : list CssBlockError :=
  drop (length (errors (block st))) (errors (block (m st).2)).

(** ** The messages *)

Definition MUST_BE_A_NUMBER : string :=
  "block-interface-index must be a number.".

Definition MUST_BE_UNIQUE : string :=
  "Each block-interface-index in a definition file must be unique.".

Definition noPresetIndex (source : string) : string :=
  "Style node " +:+ source +:+
  " doesn't have a preset interface index after parsing definition file. You may need to declare this style node in the definition file.".

Definition noStyleNode (sel : string) : Error :=
  "Couldn't find style node corresponding to selector " +:+ sel +:+
  ". This shouldn't happen.".

(** ** What the specification calls a numeric value *)

Definition isDecimalDigit (c : ascii) : bool :=
  (48 <=? code c) && (code c <=? 57).

Fixpoint allDecimalDigits (s : string) : bool :=
  match s with
  | EmptyString => true
  | String c s' => isDecimalDigit c && allDecimalDigits s'
  end.

(** The words of the specification: a value is purely numeric when it is
    an optional sign followed by decimal digits, at least one, and by
    nothing else. *)
Definition purelyNumeric (s : string) : bool :=
  match (stripSign s).2 with
  | EmptyString => false
  | digits => allDecimalDigits digits
  end.

(** What the code accepts: after the leading white space and an optional
    sign, the value begins with a decimal digit. *)
Definition beginsWithDigit (s : string) : bool :=
  match (stripSign (trimStart s)).2 with
  | String c _ => isDecimalDigit c
  | EmptyString => false
  end.

(** ** A block and some definition files, for the examples *)

Module Example.

Definition sourceRange (_ : unit) (_ : Root) (file : string)
  (d : Declaration) : SourceLocation :=
  match source d with
  | Some (s, e) => SourceRange file s e
  | None => SourceFile file
  end.

(** The selectors of a rule are the parts of its selector between commas;
    a selector is its own key. *)
Fixpoint splitAtCommas (s : string) : list string :=
  match s with
  | EmptyString => [EmptyString]
  | String c s' =>
      if Ascii.eqb c "," then EmptyString :: splitAtCommas s'
      else
        match splitAtCommas s' with
        | x :: xs => String c x :: xs
        | [] => [String c EmptyString]
        end
  end.

Definition selector (k : string) : ParsedSelector string :=
  {| key := k; toString := k |}.

Definition getParsedSelectors (rule : ChildNode)
  : list (ParsedSelector string) :=
  match rule with
  | Rule sel _ => selector <$> splitAtCommas sel
  | _ => []
  end.

(** The style nodes: 0 is [.foo], 1 is [[state|on]], 2 is [.bar] and 3 is
    [[size|big]]. *)
Definition getStyleTargets (k : string) : StyleTargets :=
  if String.eqb k ".foo" then {| blockAttrs := []; blockClasses := [0%nat] |}
  else if String.eqb k "[state|on]" then
    {| blockAttrs := [1%nat]; blockClasses := [] |}
  else if String.eqb k ".bar" then
    {| blockAttrs := []; blockClasses := [2%nat] |}
  else if String.eqb k ".foo[state|on][size|big]" then
    {| blockAttrs := [1%nat; 3%nat]; blockClasses := [0%nat] |}
  else {| blockAttrs := []; blockClasses := [] |}.

Definition node (src : string) (i : Z) : Style :=
  {| asSource := src; index := Num i; wasIndexReset := false |}.

Definition twoNodes : Block :=
  {| styles := [node ".foo" 0; node "[state|on]" 1]; errors := []; base := None |}.

Definition fourNodes : Block :=
  {| styles := [node ".foo" 0; node "[state|on]" 1; node ".bar" 2;
                node "[size|big]" 3];
     errors := []; base := None |}.

Definition file : string := "foo.block.d.css".

Definition indexDecl (v : string) (l : nat) : Declaration :=
  {| prop := "block-interface-index"; value := v;
     source := Some ({| line := l; column := 3 |},
                     {| line := l; column := 30 |}) |}.

Definition colorDecl : Declaration :=
  {| prop := "color"; value := "red"; source := None |}.

Definition at_ (l : nat) : SourceLocation :=
  SourceRange file {| line := l; column := 3 |} {| line := l; column := 30 |}.

(** The rules of the examples. *)
Definition fooIs (v : string) : ChildNode :=
  Rule ".foo" [Decl (indexDecl v 2); Decl colorDecl].

Definition stateIs (v : string) : ChildNode :=
  Rule "[state|on]" [Decl (indexDecl v 5)].

Definition barAndGhost : ChildNode :=
  Rule ".bar,.ghost" [Decl (indexDecl "8" 3)].

Definition fooStateSize : ChildNode :=
  Rule ".foo[state|on][size|big]" [Decl (indexDecl "6" 2)].

(** [.foo { block-interface-index: 4; color: red }
     [state|on] { block-interface-index: '5' }] *)
Definition wellFormed : Root :=
  {| children := [fooIs "4"; stateIs "'5'"] |}.

(** [.foo { block-interface-index: abc; color: red }] *)
Definition nonNumeric : Root :=
  {| children := [fooIs "abc"] |}.

(** [.foo { block-interface-index: 12px; color: red }] *)
Definition suffixed : Root :=
  {| children := [fooIs "12px"] |}.

(** [.foo { block-interface-index: 7; color: red }
     [state|on] { block-interface-index: 7 }] *)
Definition duplicated : Root :=
  {| children := [fooIs "7"; stateIs "7"] |}.

(** [.foo { block-interface-index: abc; color: red }
     [state|on] { block-interface-index: xyz }] *)
Definition twoNonNumeric : Root :=
  {| children := [fooIs "abc"; stateIs "xyz"] |}.

(** [.foo { block-interface-index: abc; color: red }
     .bar,.ghost { block-interface-index: 8 }
     [state|on] { block-interface-index: 9 }], where no style node is
    [.ghost]. *)
Definition aborting : Root :=
  {| children := [fooIs "abc"; barAndGhost; stateIs "9"] |}.

(** [.foo[state|on][size|big] { block-interface-index: 6 }] *)
Definition compound : Root :=
  {| children := [fooStateSize] |}.

(** [.foo { block-interface-index: 4; color: red }]: no rule for
    [[state|on]]. *)
Definition incomplete : Root :=
  {| children := [fooIs "4"] |}.

(** [.foo { block-interface-index: 4; color: red }
     .foo { block-interface-index: 9 }] *)
Definition fooAgain : ChildNode :=
  Rule ".foo" [Decl (indexDecl "9" 5)].

Definition redeclared : Root :=
  {| children := [fooIs "4"; fooAgain] |}.


(** [.foo { .bar { block-interface-index: abc } }]: the declaration lies
    in two rules. *)
Definition barIsAbc : ChildNode :=
  Rule ".bar" [Decl (indexDecl "abc" 3)].

Definition nested : Root :=
  {| children := [Rule ".foo" [barIsAbc]] |}.



Definition numberErrorAt (l : nat) : CssBlockError :=
  {| message := MUST_BE_A_NUMBER; location := at_ l |}.

Definition uniqueErrorAt (l : nat) : CssBlockError :=
  {| message := MUST_BE_UNIQUE; location := at_ l |}.

Definition presetErrorFor (src : string) : CssBlockError :=
  {| message := noPresetIndex src; location := SourceFile file |}.

Definition assigned (src : string) (v : number) : Style :=
  {| asSource := src; index := v; wasIndexReset := true |}.

End Example.

(** ** addInterfaceIndexes *)

Section AddInterfaceIndexes.

(** The collaborators that are not part of the sources at hand are
    parameters: the configuration, the compound selectors, [sourceRange],
    [block.getParsedSelectors] and [getStyleTargets].  The last two resolve
    against the structure of the block under construction:
    [getStyleTargets key] stands for [getStyleTargets(block, key)] of line
    63, for the block at hand.  They are taken to return normally, not to
    change the block, and not to depend on the indexes, flags and errors
    that this pass changes; the style nodes they return are nodes of the
    block itself. *)
Context {Configuration : Type} {CompoundSelector : Type}.
Variable sourceRange :
  Configuration -> Root -> string -> Declaration -> SourceLocation.
Variable getParsedSelectors :
  ChildNode -> list (ParsedSelector CompoundSelector).
Variable getStyleTargets : CompoundSelector -> StyleTargets.

Variable configuration : Configuration.
Variable root : Root.
Variable file : string.

(** The callback of [parsedSelectors.forEach]. *)
Definition onSelector (parsedIndex : number)
  (sel : ParsedSelector CompoundSelector) : Eff unit :=
  let styleTarget := getStyleTargets (key sel) in
  match blockAttrs styleTarget with
  | attr :: _ => assignIndex attr parsedIndex
  | [] =>
      match blockClasses styleTarget with
      | cls :: _ => assignIndex cls parsedIndex
      | [] => throw (noStyleNode (toString sel))
      end
  end.

(** The callback of [rule.walkDecls("block-interface-index", ...)]. *)
Definition onDecl (rule : ChildNode) (decl : Declaration) : Eff unit :=
  let val := stripQuotes (value decl) in
  let parsedIndex := parseInt val 10 in
  (if isNaN parsedIndex then
     addError {| message := MUST_BE_A_NUMBER;
                 location := sourceRange configuration root file decl |}
   else skip) ;;
  found ← getFoundIndexes ;
  (if includes found parsedIndex then
     addError {| message := MUST_BE_UNIQUE;
                 location := sourceRange configuration root file decl |}
   else push parsedIndex) ;;
  let parsedSelectors := getParsedSelectors rule in
  forEach parsedSelectors (onSelector parsedIndex).

(** The callback of [root.walkRules]. *)
Definition onRule (rule : ChildNode) : Eff unit :=
  forEach (walkDecls "block-interface-index" rule) (onDecl rule).

(** The callback of [block.all(true).forEach]. *)
Definition onStyleNode (styleNode : Style) : Eff unit :=
  if negb (wasIndexReset styleNode) then
    addError {| message := noPresetIndex (asSource styleNode);
                location := SourceFile file |}
  else skip.

(** [root.walkRules(...)]. *)
Definition traversal : Eff unit :=
  forEach (walkRules root) onRule.

(** The loop after the traversal.  The callback only appends errors, so
    the flag it reads on a node is the one the node has when the loop
    starts. *)
Definition audit : Eff unit :=
  b ← getBlock ;
  forEach (all true b) onStyleNode.

(** The state in which the function starts on the block [b]. *)
Definition initial (b : Block) : State :=
  {| block := b; foundIndexes := [] |}.

(** The function: how it completes, and the block it leaves. *)
Definition addInterfaceIndexes (b : Block) : completion unit * Block :=
  let '(c, st) := (traversal ;; audit) (initial b) in
  (c, block st).

(** ** The pass, declaration by declaration *)

(** The declarations the traversal visits, each with the rule it is visited
    for, in the order of the visits. *)
Definition visits : list (ChildNode * Declaration) :=
  flat_map
    (fun rule => pair rule <$> walkDecls "block-interface-index" rule)
    (walkRules root).

Definition parsedIndexOf (decl : Declaration) : number :=
  parseInt (stripQuotes (value decl)) 10.

Definition numberError (decl : Declaration) : CssBlockError :=
  {| message := MUST_BE_A_NUMBER;
     location := sourceRange configuration root file decl |}.

Definition uniqueError (decl : Declaration) : CssBlockError :=
  {| message := MUST_BE_UNIQUE;
     location := sourceRange configuration root file decl |}.

Definition presetError (s : Style) : CssBlockError :=
  {| message := noPresetIndex (asSource s); location := SourceFile file |}.

(** The style node that an index is set on for a resolved target: the first
    attribute match if there is one, otherwise the first class match. *)
Definition firstMatch (t : StyleTargets) : option StyleRef :=
  match blockAttrs t with
  | attr :: _ => Some attr
  | [] => head (blockClasses t)
  end.

Definition targetOf (sel : ParsedSelector CompoundSelector)
  : option StyleRef :=
  firstMatch (getStyleTargets (key sel)).

(** The assignments [node.index = v] of the selector loop, up to the first
    selector without a style node, and how the loop completes. *)
Fixpoint loopAssignments (v : number)
  (sels : list (ParsedSelector CompoundSelector))
  : list (StyleRef * number) :=
  match sels with
  | [] => []
  | sel :: sels' =>
      match targetOf sel with
      | Some r => (r, v) :: loopAssignments v sels'
      | None => []
      end
  end.

Fixpoint loopCompletion (sels : list (ParsedSelector CompoundSelector))
  : completion unit :=
  match sels with
  | [] => Normal tt
  | sel :: sels' =>
      match targetOf sel with
      | Some _ => loopCompletion sels'
      | None => Throw (noStyleNode (toString sel))
      end
  end.

Definition applyAssignments (ws : list (StyleRef * number))
  (l : list Style) : list Style :=
  foldl (fun l w => alter (setIndex w.2) w.1 l) l ws.

(** The value of the last assignment to [r] in [ws]. *)
Fixpoint lastAssigned (r : StyleRef) (ws : list (StyleRef * number))
  : option number :=
  match ws with
  | [] => None
  | (r', v) :: ws' =>
      match lastAssigned r ws' with
      | Some v' => Some v'
      | None => if decide (r' = r) then Some v else None
      end
  end.

(** The errors a declaration records and the array it leaves, given the
    indexes found before it. *)
Definition declErrors (found : list number) (decl : Declaration)
  : list CssBlockError :=
  (if isNaN (parsedIndexOf decl) then [numberError decl] else [])
  ++ (if includes found (parsedIndexOf decl) then [uniqueError decl] else []).

Definition declFound (found : list number) (decl : Declaration)
  : list number :=
  if includes found (parsedIndexOf decl) then found
  else found ++ [parsedIndexOf decl].

(** What a sequence of visits does, from the indexes found before it: how
    it completes, the assignments it makes, the errors it records and the
    indexes found after it. *)
Record Trace := {
  completes : completion unit;
  assignments : list (StyleRef * number);
  recorded : list CssBlockError;
  found : list number
}.

Fixpoint trace (vs : list (ChildNode * Declaration)) (fnd : list number)
  : Trace :=
  match vs with
  | [] =>
      {| completes := Normal tt; assignments := [];
         recorded := []; found := fnd |}
  | (rule, decl) :: vs' =>
      let sels := getParsedSelectors rule in
      let ws := loopAssignments (parsedIndexOf decl) sels in
      match loopCompletion sels with
      | Normal _ =>
          let t := trace vs' (declFound fnd decl) in
          {| completes := completes t;
             assignments := ws ++ assignments t;
             recorded := declErrors fnd decl ++ recorded t;
             found := found t |}
      | Throw e =>
          {| completes := Throw e; assignments := ws;
             recorded := declErrors fnd decl;
             found := declFound fnd decl |}
      end
  end.

(** The assignments of the whole pass. *)
Definition passAssignments : list (StyleRef * number) :=
  assignments (trace visits []).

(** The block with every "index was reset" flag cleared and no error. *)
Definition clearReset (s : Style) : Style :=
  {| asSource := asSource s; index := index s; wasIndexReset := false |}.

Definition freshlyReset (b : Block) : Block :=
  {| styles := clearReset <$> styles b; errors := []; base := base b |}.

(** The two errors that the traversal records. *)
Definition isValidationError (e : CssBlockError) : Prop :=
  message e = MUST_BE_A_NUMBER \/ message e = MUST_BE_UNIQUE.

(** ** Running the pieces *)

Lemma bind_run {A B} (m : Eff A) (f : A -> Eff B) st :
  (m ≫= f) st =
  match m st with
  | (Normal a, st') => f a st'
  | (Throw e, st') => (Throw e, st')
  end.
Proof. reflexivity. Qed.

Lemma forEach_app {A} (l1 l2 : list A) (f : A -> Eff unit) st :
  forEach (l1 ++ l2) f st = (forEach l1 f ;; forEach l2 f) st.
Proof.
  revert st. induction l1 as [|x l1 IH]; intros st; simpl.
  - reflexivity.
  - rewrite !bind_run. destruct (f x st) as [[[]|e] st1]; [|reflexivity].
    rewrite IH. reflexivity.
Qed.

Lemma forEach_fmap {A B} (h : A -> B) (l : list A) (f : B -> Eff unit) st :
  forEach (h <$> l) f st = forEach l (fun x => f (h x)) st.
Proof.
  revert st. induction l as [|x l IH]; intros st; simpl; [reflexivity|].
  rewrite !bind_run. destruct (f (h x) st) as [[[]|e] st1]; [|reflexivity].
  apply IH.
Qed.

Lemma forEach_flat_map {A B} (g : A -> list B) (l : list A)
  (f : B -> Eff unit) st :
  forEach (flat_map g l) f st = forEach l (fun x => forEach (g x) f) st.
Proof.
  revert st. induction l as [|x l IH]; intros st; simpl; [reflexivity|].
  rewrite forEach_app, !bind_run.
  destruct (forEach (g x) f st) as [[[]|e] st1]; [|reflexivity].
  apply IH.
Qed.

(** The traversal is the loop over the visits. *)
Lemma traversal_visits st :
  traversal st = forEach visits (fun v => onDecl v.1 v.2) st.
Proof.
  unfold traversal, visits, onRule. rewrite forEach_flat_map.
  revert st. induction (walkRules root) as [|r rs IH]; intros st; simpl;
    [reflexivity|].
  rewrite !bind_run, forEach_fmap. simpl.
  destruct (forEach _ (onDecl r) st) as [[[]|e] st1]; [|reflexivity].
  apply IH.
Qed.

Lemma forEach_onSelector v sels st :
  forEach sels (onSelector v) st =
  (loopCompletion sels,
   {| block :=
        {| styles := applyAssignments (loopAssignments v sels)
                       (styles (block st));
           errors := errors (block st);
           base := base (block st) |};
      foundIndexes := foundIndexes st |}).
Proof.
  revert st. induction sels as [|sel sels IH]; intros [[ss es bs] fnd]; simpl.
  - reflexivity.
  - rewrite bind_run. unfold onSelector, targetOf, firstMatch.
    destruct (blockAttrs (getStyleTargets (key sel))) as [|a ?].
    + destruct (blockClasses (getStyleTargets (key sel))) as [|c ?]; simpl.
      * reflexivity.
      * rewrite IH. reflexivity.
    + simpl. rewrite IH. reflexivity.
Qed.

Lemma onDecl_run rule decl st :
  onDecl rule decl st =
  (loopCompletion (getParsedSelectors rule),
   {| block :=
        {| styles :=
             applyAssignments
               (loopAssignments (parsedIndexOf decl) (getParsedSelectors rule))
               (styles (block st));
           errors := errors (block st) ++ declErrors (foundIndexes st) decl;
           base := base (block st) |};
      foundIndexes := declFound (foundIndexes st) decl |}).
Proof.
  destruct st as [[ss es bs] fnd].
  unfold onDecl, declErrors, declFound. fold (parsedIndexOf decl).
  fold (numberError decl). fold (uniqueError decl).
  rewrite bind_run.
  destruct (isNaN (parsedIndexOf decl)); simpl;
    rewrite bind_run; simpl; rewrite bind_run;
    destruct (includes fnd (parsedIndexOf decl)); simpl;
    rewrite forEach_onSelector; simpl; rewrite <- ?app_assoc, ?app_nil_r;
    reflexivity.
Qed.

Lemma applyAssignments_app ws1 ws2 l :
  applyAssignments (ws1 ++ ws2) l =
  applyAssignments ws2 (applyAssignments ws1 l).
Proof. apply foldl_app. Qed.

Lemma forEach_visits vs st :
  forEach vs (fun v => onDecl v.1 v.2) st =
  let t := trace vs (foundIndexes st) in
  (completes t,
   {| block :=
        {| styles := applyAssignments (assignments t) (styles (block st));
           errors := errors (block st) ++ recorded t;
           base := base (block st) |};
      foundIndexes := found t |}).
Proof.
  revert st. induction vs as [|[rule decl] vs IH]; intros st; simpl.
  - destruct st as [[ss es bs] fnd]. simpl. rewrite app_nil_r. reflexivity.
  - rewrite bind_run, onDecl_run.
    destruct (loopCompletion (getParsedSelectors rule)) as [[]|e]; simpl.
    + rewrite IH. simpl. rewrite applyAssignments_app, app_assoc.
      reflexivity.
    + reflexivity.
Qed.

Lemma all_shallow b : all true b = styles b.
Proof. destruct b. reflexivity. Qed.

Lemma forEach_onStyleNode l st :
  forEach l onStyleNode st =
  (Normal tt,
   {| block :=
        {| styles := styles (block st);
           errors :=
             errors (block st)
             ++ (presetError <$> List.filter (fun s => negb (wasIndexReset s)) l);
           base := base (block st) |};
      foundIndexes := foundIndexes st |}).
Proof.
  revert st. induction l as [|s l IH]; intros [[ss es bs] fnd]; simpl.
  - rewrite app_nil_r. reflexivity.
  - rewrite bind_run. unfold onStyleNode.
    destruct (wasIndexReset s); simpl; rewrite IH; simpl.
    + reflexivity.
    + rewrite <- app_assoc. reflexivity.
Qed.

(** The function in closed form. *)
Lemma addInterfaceIndexes_run b :
  addInterfaceIndexes b =
  let t := trace visits [] in
  let ss := applyAssignments (assignments t) (styles b) in
  match completes t with
  | Normal _ =>
      (Normal tt,
       {| styles := ss;
          errors :=
            (errors b ++ recorded t)
            ++ (presetError <$> List.filter (fun s => negb (wasIndexReset s)) ss);
          base := base b |})
  | Throw e =>
      (Throw e,
       {| styles := ss; errors := errors b ++ recorded t; base := base b |})
  end.
Proof.
  unfold addInterfaceIndexes. rewrite bind_run, traversal_visits.
  rewrite forEach_visits. simpl.
  destruct (completes (trace visits [])) as [[]|e]; [|reflexivity].
  unfold audit. rewrite bind_run. simpl. rewrite ?all_shallow. simpl.
  rewrite forEach_onStyleNode. reflexivity.
Qed.

(** ** The style nodes after a sequence of assignments *)

Lemma setIndex_setIndex v w s : setIndex v (setIndex w s) = setIndex v s.
Proof. reflexivity. Qed.

Lemma lookup_applyAssignments ws l (j : nat) :
  applyAssignments ws l !! j =
  match lastAssigned j ws with
  | Some v => setIndex v <$> l !! j
  | None => l !! j
  end.
Proof.
  revert l. induction ws as [|[r v] ws IH]; intros l; simpl; [reflexivity|].
  unfold applyAssignments in *. simpl. rewrite IH.
  destruct (lastAssigned j ws) as [v'|].
  - rewrite list_lookup_alter. case_decide; [|reflexivity].
    subst. destruct (l !! j); reflexivity.
  - rewrite list_lookup_alter.
    repeat case_decide; subst; try congruence; reflexivity.
Qed.

Lemma lastAssigned_elem r v ws :
  lastAssigned r ws = Some v -> (r, v) ∈ ws.
Proof.
  induction ws as [|[r' v'] ws IH]; simpl; [discriminate|].
  destruct (lastAssigned r ws) as [w|].
  - intros [= <-]. right. auto.
  - case_decide; [|discriminate]. intros [= <-]. subst. left.
Qed.

Lemma lastAssigned_is_Some r v ws :
  (r, v) ∈ ws -> is_Some (lastAssigned r ws).
Proof.
  induction ws as [|[r' v'] ws IH]; simpl.
  - intros H. inversion H.
  - intros H. destruct (lastAssigned r ws) as [w|]; [eauto|].
    apply elem_of_cons in H as [[= -> ->]|H].
    + rewrite decide_True by reflexivity. eauto.
    + destruct (IH H) as [? [=]].
Qed.

Lemma lastAssigned_None r ws :
  lastAssigned r ws = None -> forall v, (r, v) ∉ ws.
Proof.
  intros H v Hin. apply lastAssigned_is_Some in Hin as [w Hw]. congruence.
Qed.


(** The assignments of the selector loop: one to the first match of every
    selector that comes before the first selector without a style node. *)
Lemma elem_of_loopAssignments r w v sels :
  (r, w) ∈ loopAssignments v sels <->
  w = v /\
  exists pre sel post,
    sels = pre ++ sel :: post /\
    Forall (fun x => is_Some (targetOf x)) pre /\
    targetOf sel = Some r.
Proof.
  induction sels as [|x sels IH]; simpl.
  - split; [intros H; inversion H|].
    intros (_ & pre & sel & post & E & _). destruct pre; discriminate.
  - destruct (targetOf x) as [rx|] eqn:Ex.
    + rewrite elem_of_cons, IH. split.
      * intros [[= -> ->]|(-> & pre & sel & post & -> & Hpre & Hsel)].
        -- split; [reflexivity|]. exists [], x, sels. auto.
        -- split; [reflexivity|]. exists (x :: pre), sel, post.
           split; [reflexivity|]. split; [|assumption].
           constructor; [rewrite Ex; eauto | assumption].
      * intros (-> & pre & sel & post & E & Hpre & Hsel).
        destruct pre as [|y pre]; simpl in E; injection E as -> ->.
        -- left. congruence.
        -- right. split; [reflexivity|]. inversion Hpre; subst. eauto 10.
    + split; [intros H; inversion H|].
      intros (_ & pre & sel & post & E & Hpre & Hsel).
      destruct pre as [|y pre]; simpl in E; injection E as -> ->.
      * congruence.
      * inversion Hpre as [|? ? [? Hy]]; subst. congruence.
Qed.

Lemma loopCompletion_Normal sels :
  loopCompletion sels = Normal tt <->
  Forall (fun x => is_Some (targetOf x)) sels.
Proof.
  induction sels as [|x sels IH]; simpl.
  - split; auto.
  - destruct (targetOf x) as [r|] eqn:Ex.
    + rewrite IH. split.
      * intros H. constructor; [rewrite Ex; eauto | assumption].
      * intros H. inversion H; assumption.
    + split; [discriminate|]. intros H. inversion H as [|? ? [? Hx]]; subst.
      congruence.
Qed.

Lemma loopCompletion_Throw sels e :
  loopCompletion sels = Throw e ->
  exists sel, sel ∈ sels /\ targetOf sel = None /\ e = noStyleNode (toString sel).
Proof.
  induction sels as [|x sels IH]; simpl; [discriminate|].
  destruct (targetOf x) as [r|] eqn:Ex.
  - intros H. destruct (IH H) as (sel & ? & ? & ?). exists sel.
    split; [right; assumption | auto].
  - intros [= <-]. exists x. split; [left | auto].
Qed.

Lemma targetOf_None sel :
  targetOf sel = None <->
  blockAttrs (getStyleTargets (key sel)) = [] /\
  blockClasses (getStyleTargets (key sel)) = [].
Proof.
  unfold targetOf, firstMatch.
  destruct (blockAttrs _) as [|a ?]; [|split; [discriminate | intros [[=] _]]].
  destruct (blockClasses _) as [|c ?]; simpl.
  - split; auto.
  - split; [discriminate | intros [_ [=]]].
Qed.

(** ** The indexes found *)

Lemma sameValueZero_eq x y : sameValueZero x y = true <-> x = y.
Proof.
  destruct x as [|a|a], y as [|b|b]; simpl; split; try congruence.
  - intros H. apply Z.eqb_eq in H. congruence.
  - intros [= ->]. apply Z.eqb_refl.
  - intros H. apply Bool.eqb_prop in H. congruence.
  - intros [= ->]. apply Bool.eqb_reflx.
Qed.

Lemma includes_elem l x : includes l x = true <-> x ∈ l.
Proof.
  induction l as [|y l IH]; simpl.
  - split; [discriminate | intros H; inversion H].
  - rewrite orb_true_iff, sameValueZero_eq, IH, elem_of_cons.
    split; intros [?|?]; auto.
Qed.

Lemma includes_NaN_existsb (l : list number) :
  includes l NaN = existsb isNaN l.
Proof.
  induction l as [|y l IH]; simpl; [reflexivity|].
  rewrite IH. destruct y; reflexivity.
Qed.

Lemma elem_of_declFound fnd decl x :
  x ∈ declFound fnd decl <-> x ∈ fnd \/ x = parsedIndexOf decl.
Proof.
  unfold declFound.
  destruct (includes fnd (parsedIndexOf decl)) eqn:E.
  - apply includes_elem in E. split; [auto|]. intros [?| ->]; assumption.
  - rewrite elem_of_app, list_elem_of_singleton. reflexivity.
Qed.

(** After visits that complete, the indexes found are the ones that were
    found before and the parsed values of the declarations visited. *)
Lemma elem_of_found vs fnd x :
  completes (trace vs fnd) = Normal tt ->
  x ∈ found (trace vs fnd) <->
  x ∈ fnd \/ exists v, v ∈ vs /\ x = parsedIndexOf v.2.
Proof.
  revert fnd. induction vs as [|[rule decl] vs IH]; intros fnd; simpl.
  - intros _. split; [auto|]. intros [?|(v & H & _)]; [assumption|].
    inversion H.
  - destruct (loopCompletion (getParsedSelectors rule)) as [[]|e]; simpl;
      [|discriminate].
    intros Hc. rewrite (IH _ Hc), elem_of_declFound. split.
    + intros [[?| ->]|(v & Hv & ->)]; [auto| |].
      * right. exists (rule, decl). split; [left | reflexivity].
      * right. exists v. split; [right; assumption | reflexivity].
    + intros [?|(v & Hv & ->)]; [auto|].
      apply elem_of_cons in Hv as [->|Hv]; [auto|].
      right. exists v. auto.
Qed.

(** ** The errors recorded *)

Lemma errorsAddedBy_onDecl rule decl st :
  errorsAddedBy (onDecl rule decl) st = declErrors (foundIndexes st) decl.
Proof.
  unfold errorsAddedBy. rewrite onDecl_run. simpl. apply drop_app_length.
Qed.

Lemma number_not_unique : MUST_BE_A_NUMBER <> MUST_BE_UNIQUE.
Proof. discriminate. Qed.

Lemma noStyleNode_not_validation sel :
  noStyleNode sel <> MUST_BE_A_NUMBER /\ noStyleNode sel <> MUST_BE_UNIQUE.
Proof. split; discriminate. Qed.

Lemma noPresetIndex_not_validation src :
  noPresetIndex src <> MUST_BE_A_NUMBER /\ noPresetIndex src <> MUST_BE_UNIQUE.
Proof. split; discriminate. Qed.

Lemma declErrors_validation fnd decl :
  Forall isValidationError (declErrors fnd decl).
Proof.
  unfold declErrors, isValidationError.
  destruct (isNaN _), (includes _ _); simpl;
    repeat apply Forall_cons_2; try apply Forall_nil_2; simpl; auto.
Qed.

Lemma recorded_validation vs fnd :
  Forall isValidationError (recorded (trace vs fnd)).
Proof.
  revert fnd. induction vs as [|[rule decl] vs IH]; intros fnd; simpl.
  - constructor.
  - destruct (loopCompletion _) as [[]|e]; simpl.
    + apply Forall_app. split; [apply declErrors_validation | apply IH].
    + apply declErrors_validation.
Qed.

(** A pass that throws does so for a selector, of a rule that is visited,
    without a style node. *)
Lemma completes_Throw vs fnd e :
  completes (trace vs fnd) = Throw e ->
  exists v sel,
    v ∈ vs /\ sel ∈ getParsedSelectors v.1 /\ targetOf sel = None /\
    e = noStyleNode (toString sel).
Proof.
  revert fnd. induction vs as [|[rule decl] vs IH]; intros fnd; simpl;
    [discriminate|].
  destruct (loopCompletion (getParsedSelectors rule)) as [[]|e'] eqn:El; simpl.
  - intros H. destruct (IH _ H) as (v & sel & ? & ?).
    exists v, sel. split; [right; assumption | assumption].
  - intros [= ->]. apply loopCompletion_Throw in El as (sel & ? & ? & ?).
    exists (rule, decl), sel. split; [left | auto].
Qed.

Lemma completes_Normal vs fnd :
  completes (trace vs fnd) = Normal tt <->
  forall v sel, v ∈ vs -> sel ∈ getParsedSelectors v.1 -> is_Some (targetOf sel).
Proof.
  revert fnd. induction vs as [|[rule decl] vs IH]; intros fnd; simpl.
  - split; [|reflexivity]. intros _ v sel H. inversion H.
  - destruct (loopCompletion (getParsedSelectors rule)) as [[]|e'] eqn:El; simpl.
    + apply loopCompletion_Normal in El. rewrite IH. split.
      * intros H v sel Hv Hsel. apply elem_of_cons in Hv as [->|Hv].
        -- simpl in Hsel. rewrite Forall_forall in El. apply El.
           assumption.
        -- eauto.
      * intros H v sel Hv. apply H. right. assumption.
    + split; [discriminate|]. intros H.
      apply loopCompletion_Throw in El as (sel & Hsel & Hnone & _).
      destruct (H (rule, decl) sel) as [r Hr]; [left | assumption |].
      congruence.
Qed.

(** An assignment of the pass sets the parsed value of a declaration that
    is visited on the first match of a selector of its rule. *)
Lemma elem_of_assignments vs fnd r w :
  (r, w) ∈ assignments (trace vs fnd) ->
  exists v sel,
    v ∈ vs /\ sel ∈ getParsedSelectors v.1 /\ targetOf sel = Some r /\
    w = parsedIndexOf v.2.
Proof.
  revert fnd. induction vs as [|[rule decl] vs IH]; intros fnd; simpl.
  - intros H. inversion H.
  - assert (Hloop : (r, w) ∈ loopAssignments (parsedIndexOf decl)
                                (getParsedSelectors rule) ->
            exists v sel,
              v ∈ (rule, decl) :: vs /\ sel ∈ getParsedSelectors v.1 /\
              targetOf sel = Some r /\ w = parsedIndexOf v.2).
    { intros H. apply elem_of_loopAssignments in H
        as (-> & pre & sel & post & E & _ & Hsel).
      exists (rule, decl), sel. split; [left|]. simpl. rewrite E.
      split; [|auto]. apply elem_of_app. right. left. }
    destruct (loopCompletion (getParsedSelectors rule)) as [[]|e']; simpl.
    + rewrite elem_of_app. intros [H|H]; [auto|].
      destruct (IH _ H) as (v & sel & ? & ?). exists v, sel.
      split; [right; assumption | assumption].
    + assumption.
Qed.

(** ** parseInt in base 10 *)

Lemma between_decide a b n :
  (a <=? n) && (n <=? b) = bool_decide (a ≤ n ≤ b).
Proof.
  apply eq_true_iff_eq.
  rewrite andb_true_iff, !Z.leb_le, bool_decide_eq_true. reflexivity.
Qed.

Lemma radixDigit_10 c :
  radixDigit 10 c = if isDecimalDigit c then Some (code c - 48) else None.
Proof.
  unfold radixDigit, digitValue, isDecimalDigit. rewrite !between_decide.
  generalize (code c). intros n.
  repeat case_bool_decide; simpl;
    try (rewrite (proj2 (Z.ltb_lt _ _)) by lia; reflexivity);
    try (rewrite (proj2 (Z.ltb_ge _ _)) by lia; reflexivity);
    reflexivity.
Qed.

Lemma isDecimalDigit_not_space c :
  isDecimalDigit c = true -> isWhiteSpace c = false.
Proof.
  unfold isDecimalDigit, isWhiteSpace. rewrite between_decide.
  generalize (code c). intros n Hn. apply bool_decide_eq_true in Hn. simpl.
  rewrite !(proj2 (Z.eqb_neq n _)) by lia. reflexivity.
Qed.

Lemma isNaN_roundToDouble n : isNaN (roundToDouble n) = false.
Proof.
  unfold roundToDouble. destruct (Z.abs n <? 2 ^ 53); [reflexivity|].
  cbv zeta. destruct (2 ^ 1024 <=? _); reflexivity.
Qed.

Lemma parseInt_10 s :
  parseInt s 10 =
  match digitsPrefix 10 (stripSign (trimStart s)).2 with
  | [] => NaN
  | ds => roundToDouble ((stripSign (trimStart s)).1 * mathInt 10 ds)
  end.
Proof.
  unfold parseInt. destruct (stripSign (trimStart s)) as [sign str].
  reflexivity.
Qed.

(** The code accepts a value exactly when, after the leading white space
    and an optional sign, it begins with a decimal digit. *)
Lemma isNaN_parseInt_10 s :
  isNaN (parseInt s 10) = negb (beginsWithDigit s).
Proof.
  rewrite parseInt_10. unfold beginsWithDigit.
  destruct (stripSign (trimStart s)).2 as [|c str]; simpl; [reflexivity|].
  rewrite radixDigit_10.
  destruct (isDecimalDigit c); [apply isNaN_roundToDouble | reflexivity].
Qed.

Lemma purelyNumeric_beginsWithDigit s :
  purelyNumeric s = true -> beginsWithDigit s = true.
Proof.
  unfold purelyNumeric, beginsWithDigit.
  destruct s as [|c s]; simpl; [discriminate|].
  destruct (Ascii.eqb_spec c "-") as [->|Hm]; simpl.
  { destruct s as [|d s]; simpl; [discriminate|].
    intros H. apply andb_true_iff in H as [H _]. exact H. }
  destruct (Ascii.eqb_spec c "+") as [->|Hp]; simpl.
  { destruct s as [|d s]; simpl; [discriminate|].
    intros H. apply andb_true_iff in H as [H _]. exact H. }
  intros H. apply andb_true_iff in H as [H _].
  rewrite (isDecimalDigit_not_space _ H). simpl.
  destruct (Ascii.eqb_spec c "-"); [contradiction|].
  destruct (Ascii.eqb_spec c "+"); [contradiction|]. exact H.
Qed.

(** ** What one declaration does to the style nodes *)

Lemma onDecl_assigns rule decl st pre sel post r s :
  getParsedSelectors rule = pre ++ sel :: post ->
  Forall (fun x => is_Some (targetOf x)) pre ->
  targetOf sel = Some r ->
  styles (block st) !! r = Some s ->
  styles (block (onDecl rule decl st).2) !! r =
  Some (setIndex (parsedIndexOf decl) s).
Proof.
  intros E Hpre Hsel Hs. rewrite onDecl_run. simpl.
  rewrite lookup_applyAssignments.
  assert (Hin : (r, parsedIndexOf decl)
                  ∈ loopAssignments (parsedIndexOf decl)
                      (getParsedSelectors rule)).
  { apply elem_of_loopAssignments. eauto 10. }
  destruct (lastAssigned_is_Some _ _ _ Hin) as [w Hw]. rewrite Hw.
  apply lastAssigned_elem, elem_of_loopAssignments in Hw as [-> _].
  rewrite Hs. reflexivity.
Qed.

Lemma onDecl_leaves rule decl st (j : nat) :
  (forall sel, sel ∈ getParsedSelectors rule -> targetOf sel <> Some j) ->
  styles (block (onDecl rule decl st).2) !! j = styles (block st) !! j.
Proof.
  intros H. rewrite onDecl_run. simpl. rewrite lookup_applyAssignments.
  destruct (lastAssigned j _) as [w|] eqn:Hw; [|reflexivity].
  apply lastAssigned_elem, elem_of_loopAssignments in Hw
    as (_ & pre & sel & post & E & _ & Hsel).
  exfalso. apply (H sel); [|assumption].
  rewrite E. apply elem_of_app. right. left.
Qed.

Lemma errors_onDecl rule decl st :
  errors (block (onDecl rule decl st).2) =
  errors (block st) ++ errorsAddedBy (onDecl rule decl) st.
Proof. rewrite errorsAddedBy_onDecl, onDecl_run. reflexivity. Qed.

(** Running the function from the state reached before a declaration. *)
Lemma addInterfaceIndexes_from b pre rule decl post st1 :
  visits = pre ++ (rule, decl) :: post ->
  forEach pre (fun v => onDecl v.1 v.2) (initial b) = (Normal tt, st1) ->
  addInterfaceIndexes b =
  let '(c, st) :=
    (onDecl rule decl ;; forEach post (fun v => onDecl v.1 v.2) ;; audit) st1 in
  (c, block st).
Proof.
  intros Ev Hpre. unfold addInterfaceIndexes.
  rewrite bind_run, traversal_visits, Ev, forEach_app, bind_run, Hpre.
  simpl. rewrite !bind_run.
  destruct (onDecl rule decl st1) as [[[]|e] st2]; [|reflexivity].
  rewrite !bind_run.
  destruct (forEach post _ st2) as [[[]|e] st3]; reflexivity.
Qed.

Lemma errors_audit st :
  errors (block st) `prefix_of` errors (block (audit st).2).
Proof.
  unfold audit. rewrite bind_run. simpl. unfold all.
  rewrite forEach_onStyleNode. simpl. apply prefix_app_r. reflexivity.
Qed.

Lemma errors_forEach_visits vs st :
  errors (block st)
    `prefix_of` errors (block (forEach vs (fun v => onDecl v.1 v.2) st).2).
Proof.
  rewrite forEach_visits. simpl. apply prefix_app_r. reflexivity.
Qed.

(** ** A declaration in the course of the pass *)

(** No selector of the rules of the visits [vs] has the style node [r] as
    its first match. *)
Definition untargetedBy (vs : list (ChildNode * Declaration)) (r : StyleRef)
  : Prop :=
  forall rule decl sel,
    (rule, decl) ∈ vs -> sel ∈ getParsedSelectors rule ->
    targetOf sel <> Some r.

Lemma styles_audit st : styles (block (audit st).2) = styles (block st).
Proof.
  unfold audit. rewrite bind_run. simpl. rewrite forEach_onStyleNode.
  reflexivity.
Qed.

(** After a declaration that the pass has reached, a style node that no
    later visit targets is not touched again. *)
Lemma node_after_visit b pre rule decl post st1 (r : nat) :
  visits = pre ++ (rule, decl) :: post ->
  forEach pre (fun v => onDecl v.1 v.2) (initial b) = (Normal tt, st1) ->
  untargetedBy post r ->
  styles (addInterfaceIndexes b).2 !! r =
  styles (block (onDecl rule decl st1).2) !! r.
Proof.
  intros Ev Hpre Hlater.
  rewrite (addInterfaceIndexes_from b pre rule decl post st1 Ev Hpre).
  rewrite bind_run.
  destruct (onDecl rule decl st1) as [[[]|e] st2]; simpl; [|reflexivity].
  rewrite bind_run, forEach_visits. cbv zeta.
  assert (Hl : applyAssignments
                 (assignments (trace post (foundIndexes st2)))
                 (styles (block st2)) !! r = styles (block st2) !! r).
  { rewrite lookup_applyAssignments.
    destruct (lastAssigned r _) as [w|] eqn:Hw; [|reflexivity].
    apply lastAssigned_elem, elem_of_assignments in Hw
      as ([rule' decl'] & sel' & Hv' & Hsel' & Htarget' & _).
    destruct (Hlater rule' decl' sel' Hv' Hsel' Htarget'). }
  destruct (completes (trace post (foundIndexes st2))) as [[]|e]; simpl.
  - match goal with
    | |- context [audit ?st] =>
        pose proof (styles_audit st) as Ha; destruct (audit st) as [c st4]
    end.
    simpl in *. rewrite Ha. exact Hl.
  - exact Hl.
Qed.

(** The errors of the block after a declaration that the pass has reached
    stay, in front of the later ones. *)
Lemma errors_after_visit b pre rule decl post st1 :
  visits = pre ++ (rule, decl) :: post ->
  forEach pre (fun v => onDecl v.1 v.2) (initial b) = (Normal tt, st1) ->
  exists later,
    errors (addInterfaceIndexes b).2 =
    errors (block (onDecl rule decl st1).2) ++ later.
Proof.
  intros Ev Hpre.
  rewrite (addInterfaceIndexes_from b pre rule decl post st1 Ev Hpre).
  rewrite bind_run.
  destruct (onDecl rule decl st1) as [[[]|e] st2]; simpl;
    [|exists []; rewrite app_nil_r; reflexivity].
  rewrite bind_run.
  pose proof (errors_forEach_visits post st2) as [l1 H1].
  destruct (forEach post _ st2) as [[[]|e] st3]; simpl in *;
    [|exists l1; exact H1].
  pose proof (errors_audit st3) as [l2 H2].
  destruct (audit st3) as [c st4]. simpl in *.
  exists (l1 ++ l2). rewrite H2, H1, app_assoc. reflexivity.
Qed.

(** The indexes found when the pass reaches a declaration are the parsed
    values of the declarations visited before it. *)
Lemma found_before_visit b pre st1 x :
  forEach pre (fun v => onDecl v.1 v.2) (initial b) = (Normal tt, st1) ->
  includes (foundIndexes st1) x = true <->
  exists rule decl, (rule, decl) ∈ pre /\ parsedIndexOf decl = x.
Proof.
  intros Hpre. rewrite forEach_visits in Hpre. cbv zeta in Hpre.
  injection Hpre as Hc <-. simpl in *.
  rewrite includes_elem, (elem_of_found _ _ _ Hc). split.
  - intros [H|([rule decl] & Hv & ->)]; [inversion H|]. eauto.
  - intros (rule & decl & Hv & <-). right. exists (rule, decl). auto.
Qed.

(** ** The properties of the specification *)

(** C1, as amended.  When the pass reaches a declaration whose unquoted
    value does not parse as an integer, this visit of the declaration adds
    exactly one "block-interface-index must be a number." error to the
    errors that the function leaves, with the source range of the
    declaration.  (A declaration is visited once for each rule it lies in:
    once in a definition file without nested rules.)  The declaration is
    not skipped: every selector of its rule that the loop reaches has the
    failed parse result, NaN, set as the index of its first match, which is
    thereby marked as reset, and the function leaves the node so unless a
    later rule resolves to it. *)
Theorem nonnumeric_index_is_recorded_and_assigned b pre rule decl post st1 :
  visits = pre ++ (rule, decl) :: post ->
  forEach pre (fun v => onDecl v.1 v.2) (initial b) = (Normal tt, st1) ->
  isNaN (parseInt (stripQuotes (value decl)) 10) = true ->
  (exists rest later,
     errorsAddedBy (onDecl rule decl) st1 =
       {| message := MUST_BE_A_NUMBER;
          location := sourceRange configuration root file decl |} :: rest /\
     Forall (fun e => message e <> MUST_BE_A_NUMBER) rest /\
     errors (addInterfaceIndexes b).2 =
       errors (block st1) ++
       {| message := MUST_BE_A_NUMBER;
          location := sourceRange configuration root file decl |}
       :: rest ++ later) /\
  forall spre sel spost r s,
    getParsedSelectors rule = spre ++ sel :: spost ->
    Forall (fun x => is_Some (targetOf x)) spre ->
    targetOf sel = Some r ->
    styles (block st1) !! r = Some s ->
    styles (block (onDecl rule decl st1).2) !! r =
      Some {| asSource := asSource s; index := NaN; wasIndexReset := true |} /\
    (untargetedBy post r ->
     styles (addInterfaceIndexes b).2 !! r =
       Some {| asSource := asSource s; index := NaN;
               wasIndexReset := true |}).
Proof.
  intros Ev Hpre Hnan. split.
  - destruct (errors_after_visit b pre rule decl post st1 Ev Hpre)
      as [later Hlater].
    rewrite Hlater, errors_onDecl, errorsAddedBy_onDecl.
    unfold declErrors, parsedIndexOf. rewrite Hnan.
    eexists _, later. split; [reflexivity|]. split.
    + destruct (includes _ _); repeat constructor. simpl.
      intros H. symmetry in H. exact (number_not_unique H).
    + rewrite <- !app_assoc. reflexivity.
  - intros spre sel spost r s E Hspre Hsel Hs.
    assert (Hnow : styles (block (onDecl rule decl st1).2) !! r =
              Some {| asSource := asSource s; index := NaN;
                      wasIndexReset := true |}).
    { rewrite (onDecl_assigns rule decl st1 spre sel spost r s E Hspre Hsel Hs).
      unfold parsedIndexOf.
      destruct (parseInt (stripQuotes (value decl)) 10);
        [reflexivity | discriminate | discriminate]. }
    split; [exact Hnow|]. intros Hlater.
    rewrite (node_after_visit b pre rule decl post st1 r Ev Hpre Hlater).
    exact Hnow.
Qed.

(** C2, as amended.  When the pass reaches a declaration whose parsed index
    is already among the indexes found, that is, is the parsed index of a
    declaration visited before, the declaration adds one "Each
    block-interface-index in a definition file must be unique." error to
    the errors that the function leaves, with the source range of the
    declaration, and leaves the indexes found as they are.  The declaration
    is not skipped: every selector of its rule that the loop reaches has the
    repeated index set on its first match, which is thereby marked as reset,
    and the function leaves the node so unless a later rule resolves to
    it. *)
Theorem duplicate_index_is_recorded_and_assigned b pre rule decl post st1 :
  visits = pre ++ (rule, decl) :: post ->
  forEach pre (fun v => onDecl v.1 v.2) (initial b) = (Normal tt, st1) ->
  includes (foundIndexes st1) (parseInt (stripQuotes (value decl)) 10)
  = true ->
  (exists rule0 decl0,
     (rule0, decl0) ∈ pre /\
     parseInt (stripQuotes (value decl0)) 10 =
     parseInt (stripQuotes (value decl)) 10) /\
  (exists before later,
     errorsAddedBy (onDecl rule decl) st1 =
       before ++
       [{| message := MUST_BE_UNIQUE;
           location := sourceRange configuration root file decl |}] /\
     Forall (fun e => message e <> MUST_BE_UNIQUE) before /\
     errors (addInterfaceIndexes b).2 =
       errors (block st1) ++ before ++
       {| message := MUST_BE_UNIQUE;
          location := sourceRange configuration root file decl |} :: later) /\
  foundIndexes (onDecl rule decl st1).2 = foundIndexes st1 /\
  forall spre sel spost r s,
    getParsedSelectors rule = spre ++ sel :: spost ->
    Forall (fun x => is_Some (targetOf x)) spre ->
    targetOf sel = Some r ->
    styles (block st1) !! r = Some s ->
    styles (block (onDecl rule decl st1).2) !! r =
      Some {| asSource := asSource s;
              index := parseInt (stripQuotes (value decl)) 10;
              wasIndexReset := true |} /\
    (untargetedBy post r ->
     styles (addInterfaceIndexes b).2 !! r =
       Some {| asSource := asSource s;
               index := parseInt (stripQuotes (value decl)) 10;
               wasIndexReset := true |}).
Proof.
  intros Ev Hpre Hdup. split; [|split; [|split]].
  - apply (found_before_visit b pre st1 _ Hpre). exact Hdup.
  - destruct (errors_after_visit b pre rule decl post st1 Ev Hpre)
      as [later Hlater].
    rewrite Hlater, errors_onDecl, errorsAddedBy_onDecl.
    unfold declErrors, parsedIndexOf. rewrite Hdup.
    eexists _, later. split; [reflexivity|]. split.
    + destruct (isNaN _); repeat constructor. simpl.
      exact number_not_unique.
    + rewrite <- !app_assoc. reflexivity.
  - rewrite onDecl_run. simpl. unfold declFound, parsedIndexOf.
    rewrite Hdup. reflexivity.
  - intros spre sel spost r s E Hspre Hsel Hs.
    pose proof (onDecl_assigns rule decl st1 spre sel spost r s E Hspre Hsel
                  Hs) as Hnow.
    split; [exact Hnow|]. intros Hlater.
    rewrite (node_after_visit b pre rule decl post st1 r Ev Hpre Hlater).
    exact Hnow.
Qed.

(** C3, as amended.  The unquoted value of a declaration is accepted, that
    is, no "block-interface-index must be a number." error is recorded for
    it, if and only if it begins with a decimal digit once its leading white
    space and an optional sign are dropped; what follows the leading digits
    is ignored.  Every purely numeric value is accepted. *)
Theorem index_accepted_iff_begins_with_digit rule decl st :
  let val := stripQuotes (value decl) in
  (isNaN (parseInt val 10) = false <-> beginsWithDigit val = true) /\
  (MUST_BE_A_NUMBER ∈ message <$> errorsAddedBy (onDecl rule decl) st <->
   beginsWithDigit val = false) /\
  (purelyNumeric val = true -> beginsWithDigit val = true).
Proof.
  cbv zeta. split; [|split].
  - rewrite isNaN_parseInt_10.
    destruct (beginsWithDigit _); simpl; split; congruence.
  - rewrite errorsAddedBy_onDecl. unfold declErrors, parsedIndexOf.
    rewrite isNaN_parseInt_10.
    destruct (beginsWithDigit _), (includes _ _); simpl; split; intros H;
      try reflexivity; try discriminate; try (left; fail).
    + apply list_elem_of_singleton in H. destruct (number_not_unique H).
    + inversion H.
  - apply purelyNumeric_beginsWithDigit.
Qed.

(** C6.  When the pass reaches a declaration whose value parses (it is
    not NaN) as an index that was not found before, the declaration does
    nothing but add the index to the indexes found and run the selector
    loop.  Each turn of the loop sets the index on exactly one style node of
    the resolved target: on the first attribute match if there is one,
    otherwise on the first class match; every other style node, and the
    error list, are left as they are.  So the first match of every selector
    that the loop reached carries the index, and a style node that is the
    first match of no selector of the rule is unchanged; the function leaves
    these nodes so unless a later rule resolves to them. *)
Theorem index_is_applied_to_first_match b pre rule decl post st1 parsedIndex :
  visits = pre ++ (rule, decl) :: post ->
  forEach pre (fun v => onDecl v.1 v.2) (initial b) = (Normal tt, st1) ->
  parseInt (stripQuotes (value decl)) 10 = parsedIndex ->
  isNaN parsedIndex = false ->
  includes (foundIndexes st1) parsedIndex = false ->
  onDecl rule decl st1 =
    forEach (getParsedSelectors rule) (onSelector parsedIndex)
      {| block := block st1; foundIndexes := foundIndexes st1 ++ [parsedIndex] |} /\
  (forall sel st r,
     (match blockAttrs (getStyleTargets (key sel)) with
      | attr :: _ => r = attr
      | [] => exists more, blockClasses (getStyleTargets (key sel)) = r :: more
      end) ->
     onSelector parsedIndex sel st =
       (Normal tt,
        {| block :=
             {| styles := alter (setIndex parsedIndex) r (styles (block st));
                errors := errors (block st);
                base := base (block st) |};
           foundIndexes := foundIndexes st |}) /\
     alter (setIndex parsedIndex) r (styles (block st)) !! r =
       setIndex parsedIndex <$> styles (block st) !! r /\
     forall j : nat,
       j <> r ->
       alter (setIndex parsedIndex) r (styles (block st)) !! j =
       styles (block st) !! j) /\
  (forall spre sel spost r s,
     getParsedSelectors rule = spre ++ sel :: spost ->
     Forall (fun x => is_Some (targetOf x)) spre ->
     targetOf sel = Some r ->
     styles (block st1) !! r = Some s ->
     styles (block (onDecl rule decl st1).2) !! r =
       Some {| asSource := asSource s; index := parsedIndex; wasIndexReset := true |} /\
     (untargetedBy post r ->
      styles (addInterfaceIndexes b).2 !! r =
        Some {| asSource := asSource s; index := parsedIndex;
                wasIndexReset := true |})) /\
  (forall j : nat,
     (forall sel, sel ∈ getParsedSelectors rule -> targetOf sel <> Some j) ->
     styles (block (onDecl rule decl st1).2) !! j = styles (block st1) !! j /\
     (untargetedBy post j ->
      styles (addInterfaceIndexes b).2 !! j = styles (block st1) !! j)).
Proof.
  intros Ev Hpre Hv Hvalid Hnew. split; [|split; [|split]].
  - destruct st1 as [[ss es bs] fnd]. unfold onDecl. rewrite Hv. simpl.
    rewrite !bind_run. simpl in *. rewrite Hvalid. simpl.
    rewrite bind_run. simpl. rewrite Hnew. reflexivity.
  - intros sel st r Hr. split; [|split].
    + unfold onSelector.
      destruct (blockAttrs (getStyleTargets (key sel))) as [|a ?].
      * destruct Hr as [more ->]. reflexivity.
      * subst. reflexivity.
    + apply list_lookup_alter_eq.
    + intros j Hj. apply list_lookup_alter_ne. congruence.
  - intros spre sel spost r s E Hspre Hsel Hs.
    assert (Hnow : styles (block (onDecl rule decl st1).2) !! r =
              Some {| asSource := asSource s; index := parsedIndex;
                      wasIndexReset := true |}).
    { rewrite (onDecl_assigns rule decl st1 spre sel spost r s E Hspre Hsel Hs).
      unfold parsedIndexOf. rewrite Hv. reflexivity. }
    split; [exact Hnow|]. intros Hlater.
    rewrite (node_after_visit b pre rule decl post st1 r Ev Hpre Hlater).
    exact Hnow.
  - intros j Hj.
    pose proof (onDecl_leaves rule decl st1 j Hj) as Hnow.
    split; [exact Hnow|]. intros Hlater.
    rewrite (node_after_visit b pre rule decl post st1 j Ev Hpre Hlater).
    exact Hnow.
Qed.

(** C4.  A selector, of a rule that is visited, whose resolved target has
    neither an attribute match nor a class match makes the callback throw
    on the spot, leaving the state as it found it; the function then
    completes by throwing (for that selector or for an earlier one in the
    same case), and every error it has appended to the block is one of the
    two validation errors: the failure itself is not among them. *)
Theorem unresolved_target_throws b rule decl sel :
  (rule, decl) ∈ visits ->
  sel ∈ getParsedSelectors rule ->
  blockAttrs (getStyleTargets (key sel)) = [] ->
  blockClasses (getStyleTargets (key sel)) = [] ->
  (forall v st,
     onSelector v sel st = (Throw (noStyleNode (toString sel)), st)) /\
  exists sel' added,
    blockAttrs (getStyleTargets (key sel')) = [] /\
    blockClasses (getStyleTargets (key sel')) = [] /\
    (addInterfaceIndexes b).1 = Throw (noStyleNode (toString sel')) /\
    errors (addInterfaceIndexes b).2 = errors b ++ added /\
    Forall (fun e => message e = MUST_BE_A_NUMBER \/
                     message e = MUST_BE_UNIQUE) added /\
    Forall (fun e => message e <> noStyleNode (toString sel')) added.
Proof.
  intros Hv Hsel Hattrs Hclasses. split.
  - intros v st. unfold onSelector. rewrite Hattrs, Hclasses. reflexivity.
  - rewrite addInterfaceIndexes_run. cbv zeta.
    destruct (completes (trace visits [])) as [[]|e] eqn:Hc.
    + pose proof (proj1 (completes_Normal _ _) Hc) as Hall.
      destruct (Hall (rule, decl) sel Hv Hsel) as [r Hr].
      assert (targetOf sel = None) by (apply targetOf_None; auto).
      congruence.
    + apply completes_Throw in Hc as (v & sel' & _ & _ & Hnone & ->).
      apply targetOf_None in Hnone as [? ?].
      exists sel', (recorded (trace visits [])). simpl.
      repeat split; try assumption.
      * apply recorded_validation.
      * eapply Forall_impl; [apply recorded_validation|].
        intros x [Hx|Hx] E; rewrite Hx in E; symmetry in E;
          destruct (noStyleNode_not_validation (toString sel')); auto.
Qed.



Lemma rerun_styles ws l :
  Forall (fun s => wasIndexReset s = false) l ->
  applyAssignments ws (clearReset <$> applyAssignments ws l) =
  applyAssignments ws l.
Proof.
  intros Hl. apply list_eq. intros j.
  rewrite !lookup_applyAssignments, list_lookup_fmap.
  rewrite lookup_applyAssignments.
  destruct (lastAssigned j ws) as [v|].
  - destruct (l !! j); reflexivity.
  - destruct (l !! j) as [s|] eqn:Hs; [|reflexivity].
    rewrite Forall_lookup in Hl. specialize (Hl _ _ Hs).
    destruct s; simpl in *; subst; reflexivity.
Qed.

(** C8.  The function is a function of the document and of the block it is
    given.  Moreover the block that a pass over a fresh block (no flag set,
    no error) leaves is reproduced when the pass is run again on it, once
    its flags and its errors are cleared: the same completion, the same
    index on every style node and the same errors. *)
Theorem rerun_on_reset_block b :
  Forall (fun s => wasIndexReset s = false) (styles b) ->
  errors b = [] ->
  addInterfaceIndexes (freshlyReset (addInterfaceIndexes b).2) =
  addInterfaceIndexes b.
Proof.
  intros Hfresh Herr. rewrite (addInterfaceIndexes_run b). cbv zeta.
  destruct (completes (trace visits [])) as [[]|e] eqn:Hc; simpl;
    rewrite addInterfaceIndexes_run; cbv zeta; rewrite Hc; simpl;
    rewrite (rerun_styles _ _ Hfresh), Herr; reflexivity.
Qed.

(** C9.  When the pass reaches a declaration whose value does not parse as
    an integer: if no earlier declaration was in the same case, it records
    the "must be a number" error alone and NaN joins the indexes found; if
    an earlier declaration was, NaN is found again, so the declaration
    records the "must be unique" error after its "must be a number" error,
    two errors for one declaration, and the indexes found stay as they are.
    These errors stay in the block that the function leaves. *)
Theorem repeated_nonnumeric_index_is_not_unique b pre rule decl post st1 :
  visits = pre ++ (rule, decl) :: post ->
  forEach pre (fun v => onDecl v.1 v.2) (initial b) = (Normal tt, st1) ->
  isNaN (parseInt (stripQuotes (value decl)) 10) = true ->
  let number_ :=
    {| message := MUST_BE_A_NUMBER;
       location := sourceRange configuration root file decl |} in
  let unique :=
    {| message := MUST_BE_UNIQUE;
       location := sourceRange configuration root file decl |} in
  let st2 := (onDecl rule decl st1).2 in
  (if existsb (fun v => isNaN (parseInt (stripQuotes (value v.2)) 10)) pre
   then errors (block st2) = errors (block st1) ++ [number_; unique] /\
        foundIndexes st2 = foundIndexes st1
   else errors (block st2) = errors (block st1) ++ [number_] /\
        foundIndexes st2 = foundIndexes st1 ++ [NaN]) /\
  errors (block st2) `prefix_of` errors (addInterfaceIndexes b).2.
Proof.
  intros Ev Hpre Hnan. cbv zeta. split.
  - assert (Hfound : includes (foundIndexes st1) NaN =
              existsb (fun v => isNaN (parseInt (stripQuotes (value v.2)) 10))
                pre).
    { rewrite forEach_visits in Hpre. cbv zeta in Hpre.
      injection Hpre as Hc <-. simpl in *.
      apply eq_true_iff_eq. rewrite includes_elem, (elem_of_found _ _ _ Hc).
      rewrite existsb_exists. split.
      - intros [H|(v & Hv & E)]; [inversion H|].
        exists v. split; [apply list_elem_of_In; assumption|].
        fold (parsedIndexOf v.2). rewrite <- E. reflexivity.
      - intros (v & Hv & E). right. exists v.
        split; [apply list_elem_of_In; assumption|].
        unfold parsedIndexOf.
        destruct (parseInt (stripQuotes (value v.2)) 10);
          [reflexivity | discriminate | discriminate]. }
    rewrite <- Hfound, onDecl_run. simpl.
    unfold declErrors, declFound, parsedIndexOf.
    destruct (parseInt (stripQuotes (value decl)) 10);
      [|discriminate|discriminate].
    simpl. destruct (includes (foundIndexes st1) NaN); auto.
  - rewrite (addInterfaceIndexes_from b pre rule decl post st1 Ev Hpre).
    rewrite bind_run.
    destruct (onDecl rule decl st1) as [[[]|e] st2]; simpl; [|reflexivity].
    rewrite bind_run.
    pose proof (errors_forEach_visits post st2) as H1.
    destruct (forEach post _ st2) as [[[]|e] st3]; simpl in *; [|exact H1].
    pose proof (errors_audit st3) as H2.
    destruct (audit st3) as [c st4]. simpl in *.
    etransitivity; eassumption.
Qed.

(** C10.  When the declaration that the pass has reached throws, the
    function throws the same error and leaves the block as it is at that
    point.  Nothing is undone: the style nodes are those from before the
    declaration, with the assignments that its selector loop made before
    throwing, and the errors are those from before the declaration followed
    by the ones it recorded.  The audit does not run: every error appended
    since the start is one of the two validation errors. *)
Theorem abort_keeps_partial_effects b pre rule decl post st1 e st2 :
  visits = pre ++ (rule, decl) :: post ->
  forEach pre (fun v => onDecl v.1 v.2) (initial b) = (Normal tt, st1) ->
  onDecl rule decl st1 = (Throw e, st2) ->
  addInterfaceIndexes b = (Throw e, block st2) /\
  (forall j : nat,
     (forall sel, sel ∈ getParsedSelectors rule -> targetOf sel <> Some j) ->
     styles (block st2) !! j = styles (block st1) !! j) /\
  (forall pre' sel post' r s,
     getParsedSelectors rule = pre' ++ sel :: post' ->
     Forall (fun x => is_Some (targetOf x)) pre' ->
     targetOf sel = Some r ->
     styles (block st1) !! r = Some s ->
     styles (block st2) !! r =
     Some {| asSource := asSource s;
             index := parseInt (stripQuotes (value decl)) 10;
             wasIndexReset := true |}) /\
  errors (block st2) =
    errors (block st1) ++ errorsAddedBy (onDecl rule decl) st1 /\
  exists added,
    errors (block st2) = errors b ++ added /\
    Forall (fun x => message x = MUST_BE_A_NUMBER \/
                     message x = MUST_BE_UNIQUE) added.
Proof.
  intros Ev Hpre Hthrow.
  assert (Hst2 : st2 = (onDecl rule decl st1).2) by (rewrite Hthrow; reflexivity).
  split; [|split; [|split; [|split]]].
  - rewrite (addInterfaceIndexes_from b pre rule decl post st1 Ev Hpre).
    rewrite bind_run, Hthrow. reflexivity.
  - intros j Hj. rewrite Hst2. apply onDecl_leaves. assumption.
  - intros pre' sel post' r s E Hall Hsel Hs. rewrite Hst2.
    apply (onDecl_assigns rule decl st1 pre' sel post' r s E Hall Hsel Hs).
  - rewrite Hst2. apply errors_onDecl.
  - rewrite Hst2, onDecl_run. simpl.
    rewrite forEach_visits in Hpre. cbv zeta in Hpre.
    injection Hpre as _ <-. simpl.
    exists (recorded (trace pre []) ++ declErrors (found (trace pre [])) decl).
    split; [rewrite app_assoc; reflexivity|].
    apply Forall_app. split.
    + apply recorded_validation.
    + apply declErrors_validation.
Qed.

(** ** Passes that complete *)

(** With collaborators that return normally, as they are taken to here,
    the function returns normally exactly when every selector of every rule
    that is visited resolves to a style node. *)
Lemma pass_completes_iff b :
  (addInterfaceIndexes b).1 = Normal tt <->
  forall rule decl sel,
    (rule, decl) ∈ visits -> sel ∈ getParsedSelectors rule ->
    is_Some (targetOf sel).
Proof.
  rewrite addInterfaceIndexes_run. cbv zeta. split.
  - intros H rule decl sel.
    destruct (completes (trace visits [])) as [[]|e] eqn:Hc; [|discriminate].
    apply (proj1 (completes_Normal visits []) Hc (rule, decl) sel).
  - intros H.
    destruct (completes (trace visits [])) as [[]|e] eqn:Hc; [reflexivity|].
    exfalso. apply completes_Throw in Hc as (v & sel & Hv & Hsel & Hnone & _).
    destruct v as [rule decl]. destruct (H rule decl sel Hv Hsel) as [r Hr].
    congruence.
Qed.

(** In a pass that completes, the first match of every selector of a rule
    that is visited is assigned the parsed value of the declaration. *)
Lemma assignments_of_completed_visits vs fnd rule decl sel r :
  completes (trace vs fnd) = Normal tt ->
  (rule, decl) ∈ vs -> sel ∈ getParsedSelectors rule ->
  targetOf sel = Some r ->
  (r, parsedIndexOf decl) ∈ assignments (trace vs fnd).
Proof.
  revert fnd. induction vs as [|[rule' decl'] vs IH]; intros fnd; simpl.
  - intros _ H. inversion H.
  - destruct (loopCompletion (getParsedSelectors rule')) as [[]|e] eqn:El;
      simpl; [|discriminate].
    intros Hc Hv Hsel Htarget. apply elem_of_app.
    apply elem_of_cons in Hv as [[= -> ->]|Hv]; [left | right; eauto].
    apply elem_of_loopAssignments. split; [reflexivity|].
    apply loopCompletion_Normal in El.
    apply list_elem_of_split in Hsel as (pre & post & E).
    exists pre, sel, post. split; [assumption|]. split; [|assumption].
    rewrite E in El. apply Forall_app in El as [El _]. exact El.
Qed.

(** ** Further properties of the pass *)

(** The style node [j] is the first match of a selector of a rule that the
    traversal visits. *)
Definition targeted (j : StyleRef) : Prop :=
  exists rule decl sel,
    (rule, decl) ∈ visits /\ sel ∈ getParsedSelectors rule /\
    targetOf sel = Some j.

(** The parsed values of the declarations visited, in the order of the
    visits. *)
Definition declaredIndexes : list number :=
  (fun v => parsedIndexOf v.2) <$> visits.

Lemma styles_addInterfaceIndexes b :
  styles (addInterfaceIndexes b).2 =
  applyAssignments passAssignments (styles b).
Proof.
  rewrite addInterfaceIndexes_run. cbv zeta. unfold passAssignments.
  destruct (completes (trace visits [])) as [[]|e]; reflexivity.
Qed.

Lemma completes_addInterfaceIndexes b :
  (addInterfaceIndexes b).1 = completes (trace visits []).
Proof.
  rewrite addInterfaceIndexes_run. cbv zeta.
  destruct (completes (trace visits [])) as [[]|e]; reflexivity.
Qed.

Lemma lastAssigned_app r ws1 ws2 :
  lastAssigned r (ws1 ++ ws2) =
  match lastAssigned r ws2 with
  | Some v => Some v
  | None => lastAssigned r ws1
  end.
Proof.
  induction ws1 as [|[r' v'] ws1 IH]; simpl.
  - destruct (lastAssigned r ws2); reflexivity.
  - rewrite IH. destruct (lastAssigned r ws2); reflexivity.
Qed.

Lemma trace_app vs1 vs2 fnd :
  completes (trace vs1 fnd) = Normal tt ->
  trace (vs1 ++ vs2) fnd =
  let t1 := trace vs1 fnd in
  let t2 := trace vs2 (found t1) in
  {| completes := completes t2;
     assignments := assignments t1 ++ assignments t2;
     recorded := recorded t1 ++ recorded t2;
     found := found t2 |}.
Proof.
  revert fnd. induction vs1 as [|[rule decl] vs1 IH]; intros fnd; simpl.
  - intros _. destruct (trace vs2 fnd). reflexivity.
  - destruct (loopCompletion (getParsedSelectors rule)) as [[]|e]; simpl;
      [|discriminate].
    intros Hc. rewrite (IH _ Hc). simpl. rewrite !app_assoc. reflexivity.
Qed.

Lemma loopCompletion_first_unresolved pre sel post :
  Forall (fun x => is_Some (targetOf x)) pre ->
  targetOf sel = None ->
  loopCompletion (pre ++ sel :: post) = Throw (noStyleNode (toString sel)).
Proof.
  intros Hpre Hsel. induction Hpre as [|x pre [r Hx] _ IH]; simpl.
  - rewrite Hsel. reflexivity.
  - rewrite Hx. exact IH.
Qed.


(** X3.  A style node that is the first match of no selector of the rules
    visited is left exactly as it was, index and flag, however the function
    completes: being a later match of a resolved target does not count. *)
Theorem untargeted_node_is_untouched b (j : nat) :
  (forall rule decl sel,
     (rule, decl) ∈ visits -> sel ∈ getParsedSelectors rule ->
     targetOf sel <> Some j) ->
  styles (addInterfaceIndexes b).2 !! j = styles b !! j.
Proof.
  intros H. rewrite styles_addInterfaceIndexes, lookup_applyAssignments.
  destruct (lastAssigned j passAssignments) as [w|] eqn:Hw; [|reflexivity].
  apply lastAssigned_elem, elem_of_assignments in Hw
    as ([rule decl] & sel & Hv & Hsel & Htarget & _).
  destruct (H rule decl sel Hv Hsel Htarget).
Qed.


Lemma completes_app_l vs1 vs2 fnd :
  completes (trace (vs1 ++ vs2) fnd) = Normal tt ->
  completes (trace vs1 fnd) = Normal tt.
Proof.
  rewrite !completes_Normal. intros H v sel Hv. apply H.
  apply elem_of_app. left. assumption.
Qed.

Lemma lastAssigned_loopAssignments r v sels w :
  lastAssigned r (loopAssignments v sels) = Some w -> w = v.
Proof.
  intros H. apply lastAssigned_elem, elem_of_loopAssignments in H as [-> _].
  reflexivity.
Qed.

(** X5.  In a pass that completes, when several declarations are visited
    for rules that resolve to the same style node, the last of them decides:
    the node carries the parsed value of a declaration when no selector of a
    rule visited after it has the node as its first match. *)
Theorem last_declaration_wins b pre rule decl post sel r s :
  visits = pre ++ (rule, decl) :: post ->
  (addInterfaceIndexes b).1 = Normal tt ->
  sel ∈ getParsedSelectors rule ->
  targetOf sel = Some r ->
  (forall rule' decl' sel',
     (rule', decl') ∈ post -> sel' ∈ getParsedSelectors rule' ->
     targetOf sel' <> Some r) ->
  styles b !! r = Some s ->
  styles (addInterfaceIndexes b).2 !! r =
  Some {| asSource := asSource s;
          index := parseInt (stripQuotes (value decl)) 10;
          wasIndexReset := true |}.
Proof.
  intros Ev Hc Hsel Htarget Hpost Hs.
  rewrite completes_addInterfaceIndexes in Hc.
  rewrite styles_addInterfaceIndexes, lookup_applyAssignments, Hs.
  unfold passAssignments. rewrite Ev in *.
  pose proof (completes_app_l _ _ _ Hc) as Hpre.
  rewrite (trace_app _ _ _ Hpre) in *. cbv zeta in *. simpl in Hc |- *.
  destruct (loopCompletion (getParsedSelectors rule)) as [[]|e] eqn:El;
    simpl in Hc |- *; [|discriminate].
  rewrite !lastAssigned_app.
  destruct (lastAssigned r (assignments (trace post _))) as [w|] eqn:Hw.
  { apply lastAssigned_elem, elem_of_assignments in Hw
      as ([rule' decl'] & sel' & Hv' & Hsel' & Htarget' & _).
    destruct (Hpost rule' decl' sel' Hv' Hsel' Htarget'). }
  assert (Hin : (r, parsedIndexOf decl)
                  ∈ loopAssignments (parsedIndexOf decl)
                      (getParsedSelectors rule)).
  { apply elem_of_loopAssignments. split; [reflexivity|].
    apply loopCompletion_Normal in El.
    apply list_elem_of_split in Hsel as (spre & spost & E).
    exists spre, sel, spost. split; [assumption|]. split; [|assumption].
    rewrite E in El. apply Forall_app in El as [El _]. exact El. }
  destruct (lastAssigned_is_Some _ _ _ Hin) as [w Hw']. rewrite Hw'.
  apply lastAssigned_loopAssignments in Hw' as ->. reflexivity.
Qed.

(** X6.  In a pass that completes, the flag of a style node is set
    afterwards if and only if it was set before or the node is the first
    match of a selector of a rule that is visited; so the nodes that the
    audit reports are those that were not set and that no rule resolves
    to. *)
Theorem reset_iff_targeted b (j : nat) s :
  (addInterfaceIndexes b).1 = Normal tt ->
  styles b !! j = Some s ->
  exists s',
    styles (addInterfaceIndexes b).2 !! j = Some s' /\
    asSource s' = asSource s /\
    (wasIndexReset s' = true <-> wasIndexReset s = true \/ targeted j) /\
    errorsAddedBy (onStyleNode s') (initial b) =
      if wasIndexReset s' then []
      else [{| message := noPresetIndex (asSource s);
               location := SourceFile file |}].
Proof.
  intros Hc Hs. rewrite completes_addInterfaceIndexes in Hc.
  rewrite styles_addInterfaceIndexes, lookup_applyAssignments, Hs.
  assert (Haudit : forall s' : Style,
            asSource s' = asSource s ->
            errorsAddedBy (onStyleNode s') (initial b) =
            if wasIndexReset s' then []
            else [{| message := noPresetIndex (asSource s);
                     location := SourceFile file |}]).
  { intros s' E. unfold errorsAddedBy, onStyleNode.
    destruct (wasIndexReset s'); simpl.
    - rewrite drop_all. reflexivity.
    - rewrite drop_app_length, E. reflexivity. }
  destruct (lastAssigned j passAssignments) as [w|] eqn:Hw; simpl.
  - exists (setIndex w s). split; [reflexivity|]. split; [reflexivity|].
    split; [|apply Haudit; reflexivity].
    split; [|reflexivity]. intros _. right.
    apply lastAssigned_elem, elem_of_assignments in Hw
      as ([rule decl] & sel & Hv & Hsel & Htarget & _).
    exists rule, decl, sel. auto.
  - exists s. split; [reflexivity|]. split; [reflexivity|].
    split; [|apply Haudit; reflexivity].
    split; [auto|]. intros [H|(rule & decl & sel & Hv & Hsel & Htarget)];
      [assumption|].
    pose proof (assignments_of_completed_visits _ _ _ _ _ _ Hc Hv Hsel Htarget)
      as Hin.
    apply lastAssigned_is_Some in Hin as [w Hw'].
    unfold passAssignments in Hw. congruence.
Qed.

(** X10.  The error thrown names the first selector, in the order of the
    visits and of the selector loop, that resolves to no style node. *)
Theorem first_unresolved_selector_is_thrown b pre rule decl post
    spre sel spost :
  visits = pre ++ (rule, decl) :: post ->
  (forall rule' decl' sel',
     (rule', decl') ∈ pre -> sel' ∈ getParsedSelectors rule' ->
     is_Some (targetOf sel')) ->
  getParsedSelectors rule = spre ++ sel :: spost ->
  Forall (fun x => is_Some (targetOf x)) spre ->
  blockAttrs (getStyleTargets (key sel)) = [] ->
  blockClasses (getStyleTargets (key sel)) = [] ->
  (addInterfaceIndexes b).1 = Throw (noStyleNode (toString sel)).
Proof.
  intros Ev Hpre Esel Hspre Hattrs Hclasses.
  rewrite completes_addInterfaceIndexes, Ev.
  assert (Hc : completes (trace pre []) = Normal tt).
  { apply completes_Normal. intros [rule' decl'] sel'. apply Hpre. }
  rewrite (trace_app _ _ _ Hc). cbv zeta. simpl.
  rewrite Esel, (loopCompletion_first_unresolved spre sel spost Hspre).
  - reflexivity.
  - apply targetOf_None. auto.
Qed.








Lemma count_number_declErrors fnd decl :
  length (filter (fun e => message e = MUST_BE_A_NUMBER) (declErrors fnd decl))
  = if isNaN (parsedIndexOf decl) then 1%nat else 0%nat.
Proof.
  unfold declErrors.
  destruct (isNaN (parsedIndexOf decl)), (includes fnd (parsedIndexOf decl));
    simpl app.
  - rewrite filter_cons_True by reflexivity.
    rewrite filter_cons_False by (simpl; intros H; symmetry in H;
                                  exact (number_not_unique H)).
    reflexivity.
  - rewrite filter_cons_True by reflexivity. reflexivity.
  - rewrite filter_cons_False by (simpl; intros H; symmetry in H;
                                  exact (number_not_unique H)).
    reflexivity.
  - reflexivity.
Qed.

Lemma count_unique_declErrors fnd decl :
  length (filter (fun e => message e = MUST_BE_UNIQUE) (declErrors fnd decl))
  = if includes fnd (parsedIndexOf decl) then 1%nat else 0%nat.
Proof.
  unfold declErrors.
  destruct (isNaN (parsedIndexOf decl)), (includes fnd (parsedIndexOf decl));
    simpl app.
  - rewrite filter_cons_False by (simpl; exact number_not_unique).
    rewrite filter_cons_True by reflexivity. reflexivity.
  - rewrite filter_cons_False by (simpl; exact number_not_unique).
    reflexivity.
  - rewrite filter_cons_True by reflexivity. reflexivity.
  - reflexivity.
Qed.

Lemma count_number_recorded vs fnd :
  completes (trace vs fnd) = Normal tt ->
  length (filter (fun e => message e = MUST_BE_A_NUMBER)
            (recorded (trace vs fnd)))
  = length (filter (fun v => isNaN (parsedIndexOf v.2) = true) vs).
Proof.
  revert fnd. induction vs as [|[rule decl] vs IH]; intros fnd; simpl;
    [reflexivity|].
  destruct (loopCompletion _) as [[]|e]; simpl; [|discriminate].
  intros Hc. rewrite filter_app, length_app, count_number_declErrors, (IH _ Hc).
  rewrite filter_cons. simpl.
  destruct (isNaN (parsedIndexOf decl)); reflexivity.
Qed.

Lemma count_unique_recorded vs fnd :
  completes (trace vs fnd) = Normal tt ->
  (length (filter (fun e => message e = MUST_BE_UNIQUE)
             (recorded (trace vs fnd)))
   + length (found (trace vs fnd)) = length vs + length fnd)%nat.
Proof.
  revert fnd. induction vs as [|[rule decl] vs IH]; intros fnd; simpl;
    [reflexivity|].
  destruct (loopCompletion _) as [[]|e]; simpl; [|discriminate].
  intros Hc. rewrite filter_app, length_app, count_unique_declErrors.
  pose proof (IH _ Hc) as H. unfold declFound in *.
  destruct (includes fnd (parsedIndexOf decl)) eqn:E;
    rewrite ?length_app in H; simpl in H; lia.
Qed.

(** The indexes found never hold a value twice. *)
Lemma found_NoDup vs fnd :
  NoDup fnd -> NoDup (found (trace vs fnd)).
Proof.
  assert (Hd : forall fnd decl, NoDup fnd -> NoDup (declFound fnd decl)).
  { intros f d Hf. unfold declFound.
    destruct (includes f (parsedIndexOf d)) eqn:E; [assumption|].
    apply NoDup_app. split; [assumption|]. split; [|apply NoDup_singleton].
    intros x Hx Hin. apply list_elem_of_singleton in Hin as ->.
    apply includes_elem in Hx. congruence. }
  revert fnd. induction vs as [|[rule decl] vs IH]; intros fnd Hf; simpl;
    [assumption|].
  destruct (loopCompletion _) as [[]|e]; simpl; auto.
Qed.

Lemma no_validation_in_presetErrors m (l : list Style) :
  m = MUST_BE_A_NUMBER \/ m = MUST_BE_UNIQUE ->
  filter (fun e => message e = m) (presetError <$> l) = [].
Proof.
  intros Hm. induction l as [|s l IH]; [reflexivity|].
  rewrite fmap_cons, filter_cons_False; [exact IH|]. simpl. intros E.
  destruct (noPresetIndex_not_validation (asSource s)) as [H1 H2].
  destruct Hm as [-> | ->]; auto.
Qed.

(** X8.  In a pass that completes, the errors appended hold one "must be a
    number" error for each declaration visited that does not parse, and one
    "must be unique" error for each declaration visited beyond the first of
    its value: their number and the number of distinct declared indexes add
    up to the number of declarations visited. *)
Theorem numbers_of_validation_errors b :
  (addInterfaceIndexes b).1 = Normal tt ->
  let added := drop (length (errors b)) (errors (addInterfaceIndexes b).2) in
  length (filter (fun e => message e = MUST_BE_A_NUMBER) added) =
    length
      (filter
         (fun v => isNaN (parseInt (stripQuotes (value v.2)) 10) = true)
         visits) /\
  (length (filter (fun e => message e = MUST_BE_UNIQUE) added)
   + length (remove_dups declaredIndexes) = length visits)%nat.
Proof.
  rewrite completes_addInterfaceIndexes. intros Hc. cbv zeta.
  rewrite addInterfaceIndexes_run. cbv zeta. rewrite Hc. simpl.
  rewrite <- app_assoc, drop_app_length, !filter_app, !length_app.
  rewrite !no_validation_in_presetErrors by auto. simpl.
  rewrite !Nat.add_0_r. split.
  - apply (count_number_recorded _ _ Hc).
  - pose proof (count_unique_recorded _ _ Hc) as H. simpl in H.
    rewrite Nat.add_0_r in H. rewrite <- H. f_equal.
    apply Permutation_length. symmetry.
    apply NoDup_Permutation.
    + apply found_NoDup. constructor.
    + apply NoDup_remove_dups.
    + intros x. rewrite elem_of_remove_dups, (elem_of_found _ _ _ Hc).
      unfold declaredIndexes. rewrite list_elem_of_fmap. split.
      * intros [H'|(v & Hv & ->)]; [inversion H'|]. eauto.
      * intros (v & -> & Hv). right. eauto.
Qed.

End AddInterfaceIndexes.

(** ** The properties on the examples *)

Local Abbreviation run :=
  (addInterfaceIndexes Example.sourceRange Example.getParsedSelectors
     Example.getStyleTargets tt).

Local Abbreviation visit :=
  (onDecl Example.sourceRange Example.getParsedSelectors
     Example.getStyleTargets tt).

Lemma nonnumeric_index_witness :
  visits Example.nonNumeric
  = [] ++ (Example.fooIs "abc", Example.indexDecl "abc" 2) :: [] /\
  isNaN (parseInt (stripQuotes "abc") 10) = true /\
  errors (run Example.nonNumeric Example.file Example.twoNodes).2
  = [Example.numberErrorAt 2; Example.presetErrorFor "[state|on]"] /\
  styles (run Example.nonNumeric Example.file Example.twoNodes).2 !! 0%nat
  = Some (Example.assigned ".foo" NaN).
Proof.
  destruct
    (nonnumeric_index_is_recorded_and_assigned Example.sourceRange
       Example.getParsedSelectors Example.getStyleTargets tt
       Example.nonNumeric Example.file Example.twoNodes []
       (Example.fooIs "abc") (Example.indexDecl "abc" 2) []
       (initial Example.twoNodes) eq_refl eq_refl eq_refl)
    as (_ & Hassigned).
  split; [reflexivity|]. split; [reflexivity|]. split; [reflexivity|].
  apply (Hassigned [] (Example.selector ".foo") [] 0%nat
           (Example.node ".foo" 0)).
  - reflexivity.
  - constructor.
  - reflexivity.
  - reflexivity.
  - intros rule decl sel Hv. destruct (not_elem_of_nil _ Hv).
Defined.

(** C1, as the specification states it, fails.  The declaration
    [block-interface-index: abc] does not parse, and yet the pass changes
    the index of the style node [.foo] of its rule, from 0 to NaN.  And a
    declaration that lies in two rules is visited for each: the function
    records two "must be a number" errors for it. *)
Lemma nonnumeric_index_is_assigned :
  isNaN (parseInt (stripQuotes (value (Example.indexDecl "abc" 2))) 10) = true /\
  index <$> styles Example.twoNodes !! 0%nat = Some (Num 0) /\
  index <$> styles (run Example.nonNumeric Example.file Example.twoNodes).2
              !! 0%nat = Some NaN /\
  run Example.nonNumeric Example.file Example.twoNodes =
    (Normal tt,
     {| styles := [Example.assigned ".foo" NaN; Example.node "[state|on]" 1];
        errors := [Example.numberErrorAt 2;
                   Example.presetErrorFor "[state|on]"]; base := None |}) /\
  run Example.nested Example.file Example.fourNodes =
    (Normal tt,
     {| styles := [Example.assigned ".foo" NaN; Example.node "[state|on]" 1;
                   Example.assigned ".bar" NaN; Example.node "[size|big]" 3];
        errors := [Example.numberErrorAt 3; Example.numberErrorAt 3;
                   Example.uniqueErrorAt 3;
                   Example.presetErrorFor "[state|on]";
                   Example.presetErrorFor "[size|big]"]; base := None |}).
Proof. repeat split. Qed.

Lemma duplicate_index_witness :
  visits Example.duplicated
  = [(Example.fooIs "7", Example.indexDecl "7" 2)]
    ++ (Example.stateIs "7", Example.indexDecl "7" 5) :: [] /\
  includes [Num 7] (parseInt (stripQuotes "7") 10) = true /\
  errors (run Example.duplicated Example.file Example.twoNodes).2
  = [Example.uniqueErrorAt 5] /\
  styles (run Example.duplicated Example.file Example.twoNodes).2 !! 1%nat
  = Some (Example.assigned "[state|on]" (Num 7)).
Proof.
  destruct
    (duplicate_index_is_recorded_and_assigned Example.sourceRange
       Example.getParsedSelectors Example.getStyleTargets tt
       Example.duplicated Example.file Example.twoNodes
       [(Example.fooIs "7", Example.indexDecl "7" 2)]
       (Example.stateIs "7") (Example.indexDecl "7" 5) []
       {| block :=
            {| styles := [Example.assigned ".foo" (Num 7);
                          Example.node "[state|on]" 1];
               errors := []; base := None |};
          foundIndexes := [Num 7] |}
       eq_refl eq_refl eq_refl)
    as (_ & _ & _ & Hassigned).
  split; [reflexivity|]. split; [reflexivity|]. split; [reflexivity|].
  apply (Hassigned [] (Example.selector "[state|on]") [] 1%nat
           (Example.node "[state|on]" 1)).
  - reflexivity.
  - constructor.
  - reflexivity.
  - reflexivity.
  - intros rule decl sel Hv. destruct (not_elem_of_nil _ Hv).
Defined.

(** C2, as the specification states it, fails: the second declaration of
    the index 7 records the error, and yet the pass sets 7 on the style node
    [[state|on]] of its rule, as it did on [.foo] for the first
    declaration. *)
Lemma duplicate_index_is_assigned :
  includes [Num 7]
    (parseInt (stripQuotes (value (Example.indexDecl "7" 5))) 10) = true /\
  styles
    (block
       (visit Example.duplicated Example.file (Example.stateIs "7")
          (Example.indexDecl "7" 5)
          {| block := Example.twoNodes; foundIndexes := [Num 7] |}).2)
  = [Example.node ".foo" 0; Example.assigned "[state|on]" (Num 7)] /\
  run Example.duplicated Example.file Example.twoNodes =
    (Normal tt,
     {| styles := [Example.assigned ".foo" (Num 7);
                   Example.assigned "[state|on]" (Num 7)];
        errors := [Example.uniqueErrorAt 5]; base := None |}).
Proof. repeat split. Qed.

Lemma index_accepted_witness :
  isNaN (parseInt (stripQuotes "'5'") 10) = false /\
  beginsWithDigit (stripQuotes "'5'") = true.
Proof.
  destruct
    (index_accepted_iff_begins_with_digit Example.sourceRange
       Example.getParsedSelectors Example.getStyleTargets tt
       Example.wellFormed Example.file (Example.stateIs "'5'")
       (Example.indexDecl "'5'" 5) (initial Example.twoNodes))
    as (Haccepted & _ & Hnumeric).
  split.
  - apply Haccepted. apply Hnumeric. reflexivity.
  - apply Hnumeric. reflexivity.
Defined.

(** C3, as the specification states it, fails: [12px] is not purely
    numeric, and yet it is accepted, as the index 12, and no
    "block-interface-index must be a number." error is recorded. *)
Lemma suffixed_index_is_accepted :
  purelyNumeric (stripQuotes (value (Example.indexDecl "12px" 2))) = false /\
  parseInt (stripQuotes (value (Example.indexDecl "12px" 2))) 10 = Num 12 /\
  errorsAddedBy
    (visit Example.suffixed Example.file (Example.fooIs "12px")
       (Example.indexDecl "12px" 2))
    (initial Example.twoNodes) = [] /\
  run Example.suffixed Example.file Example.twoNodes =
    (Normal tt,
     {| styles := [Example.assigned ".foo" (Num 12);
                   Example.node "[state|on]" 1];
        errors := [Example.presetErrorFor "[state|on]"]; base := None |}).
Proof. repeat split. Qed.

Lemma unresolved_target_witness :
  (Example.barAndGhost, Example.indexDecl "8" 3) ∈ visits Example.aborting /\
  blockAttrs (Example.getStyleTargets ".ghost") = [] /\
  blockClasses (Example.getStyleTargets ".ghost") = [] /\
  (exists sel : ParsedSelector string,
     (run Example.aborting Example.file Example.fourNodes).1 =
     Throw (noStyleNode (toString sel))) /\
  run Example.aborting Example.file Example.fourNodes =
    (Throw (noStyleNode ".ghost"),
     {| styles := [Example.assigned ".foo" NaN; Example.node "[state|on]" 1;
                   Example.assigned ".bar" (Num 8);
                   Example.node "[size|big]" 3];
        errors := [Example.numberErrorAt 2]; base := None |}).
Proof.
  assert (Hvisit : (Example.barAndGhost, Example.indexDecl "8" 3)
                     ∈ visits Example.aborting).
  { right. left. }
  assert (Hsel : Example.selector ".ghost"
                   ∈ Example.getParsedSelectors Example.barAndGhost).
  { right. left. }
  destruct
    (unresolved_target_throws Example.sourceRange Example.getParsedSelectors
       Example.getStyleTargets tt Example.aborting Example.file
       Example.fourNodes Example.barAndGhost (Example.indexDecl "8" 3)
       (Example.selector ".ghost") Hvisit Hsel eq_refl eq_refl)
    as (_ & sel' & added & _ & _ & Hthrow & _).
  split; [exact Hvisit|]. split; [reflexivity|]. split; [reflexivity|].
  split; [exists sel'; exact Hthrow|]. reflexivity.
Defined.



Lemma first_match_witness :
  visits Example.compound
  = [] ++ (Example.fooStateSize, Example.indexDecl "6" 2) :: [] /\
  parseInt (stripQuotes "6") 10 = Num 6 /\
  includes [] (Num 6) = false /\
  blockAttrs (Example.getStyleTargets ".foo[state|on][size|big]")
  = [1%nat; 3%nat] /\
  blockClasses (Example.getStyleTargets ".foo[state|on][size|big]")
  = [0%nat] /\
  styles (run Example.compound Example.file Example.fourNodes).2
  = [Example.node ".foo" 0; Example.assigned "[state|on]" (Num 6);
     Example.node ".bar" 2; Example.node "[size|big]" 3] /\
  styles (run Example.compound Example.file Example.fourNodes).2 !! 1%nat
  = Some (Example.assigned "[state|on]" (Num 6)).
Proof.
  destruct
    (index_is_applied_to_first_match Example.sourceRange
       Example.getParsedSelectors Example.getStyleTargets tt Example.compound
       Example.file Example.fourNodes [] Example.fooStateSize
       (Example.indexDecl "6" 2) [] (initial Example.fourNodes) (Num 6)
       eq_refl eq_refl eq_refl eq_refl eq_refl)
    as (_ & _ & Hassigned & _).
  repeat (split; [reflexivity|]).
  apply (Hassigned [] (Example.selector ".foo[state|on][size|big]") []
           1%nat (Example.node "[state|on]" 1)).
  - reflexivity.
  - constructor.
  - reflexivity.
  - reflexivity.
  - intros rule decl sel Hv. destruct (not_elem_of_nil _ Hv).
Defined.


Lemma rerun_witness :
  Forall (fun s => wasIndexReset s = false) (styles Example.twoNodes) /\
  errors Example.twoNodes = [] /\
  run Example.duplicated Example.file
    (freshlyReset (run Example.duplicated Example.file Example.twoNodes).2)
  = (Normal tt,
     {| styles := [Example.assigned ".foo" (Num 7);
                   Example.assigned "[state|on]" (Num 7)];
        errors := [Example.uniqueErrorAt 5]; base := None |}).
Proof.
  assert (Hfresh : Forall (fun s => wasIndexReset s = false)
                     (styles Example.twoNodes)).
  { repeat constructor. }
  split; [exact Hfresh|]. split; [reflexivity|].
  rewrite
    (rerun_on_reset_block Example.sourceRange Example.getParsedSelectors
       Example.getStyleTargets tt Example.duplicated Example.file
       Example.twoNodes Hfresh eq_refl).
  reflexivity.
Defined.

Lemma repeated_nonnumeric_witness :
  visits Example.twoNonNumeric
  = [(Example.fooIs "abc", Example.indexDecl "abc" 2)]
    ++ (Example.stateIs "xyz", Example.indexDecl "xyz" 5) :: [] /\
  isNaN (parseInt (stripQuotes "xyz") 10) = true /\
  errors
    (block
       (visit Example.twoNonNumeric Example.file (Example.stateIs "xyz")
          (Example.indexDecl "xyz" 5)
          {| block :=
               {| styles := [Example.assigned ".foo" NaN;
                             Example.node "[state|on]" 1];
                  errors := [Example.numberErrorAt 2]; base := None |};
             foundIndexes := [NaN] |}).2)
  = [Example.numberErrorAt 2; Example.numberErrorAt 5;
     Example.uniqueErrorAt 5] /\
  run Example.twoNonNumeric Example.file Example.twoNodes =
    (Normal tt,
     {| styles := [Example.assigned ".foo" NaN;
                   Example.assigned "[state|on]" NaN];
        errors := [Example.numberErrorAt 2; Example.numberErrorAt 5;
                   Example.uniqueErrorAt 5]; base := None |}).
Proof.
  destruct
    (repeated_nonnumeric_index_is_not_unique Example.sourceRange
       Example.getParsedSelectors Example.getStyleTargets tt
       Example.twoNonNumeric Example.file Example.twoNodes
       [(Example.fooIs "abc", Example.indexDecl "abc" 2)]
       (Example.stateIs "xyz") (Example.indexDecl "xyz" 5) []
       {| block :=
            {| styles := [Example.assigned ".foo" NaN;
                          Example.node "[state|on]" 1];
               errors := [Example.numberErrorAt 2]; base := None |};
          foundIndexes := [NaN] |}
       eq_refl eq_refl eq_refl)
    as ((Herrors & _) & _).
  split; [reflexivity|]. split; [reflexivity|]. split; [|reflexivity].
  rewrite Herrors. reflexivity.
Defined.

Lemma abort_witness :
  visits Example.aborting
  = [(Example.fooIs "abc", Example.indexDecl "abc" 2)]
    ++ (Example.barAndGhost, Example.indexDecl "8" 3)
       :: [(Example.stateIs "9", Example.indexDecl "9" 5)] /\
  run Example.aborting Example.file Example.fourNodes =
    (Throw (noStyleNode ".ghost"),
     {| styles := [Example.assigned ".foo" NaN; Example.node "[state|on]" 1;
                   Example.assigned ".bar" (Num 8);
                   Example.node "[size|big]" 3];
        errors := [Example.numberErrorAt 2]; base := None |}).
Proof.
  split; [vm_compute; reflexivity|].
  apply
    (abort_keeps_partial_effects Example.sourceRange
       Example.getParsedSelectors Example.getStyleTargets tt Example.aborting
       Example.file Example.fourNodes
       [(Example.fooIs "abc", Example.indexDecl "abc" 2)]
       Example.barAndGhost (Example.indexDecl "8" 3)
       [(Example.stateIs "9", Example.indexDecl "9" 5)]
       {| block :=
            {| styles := [Example.assigned ".foo" NaN;
                          Example.node "[state|on]" 1;
                          Example.node ".bar" 2; Example.node "[size|big]" 3];
               errors := [Example.numberErrorAt 2]; base := None |};
          foundIndexes := [NaN] |}
       (noStyleNode ".ghost")
       {| block :=
            {| styles := [Example.assigned ".foo" NaN;
                          Example.node "[state|on]" 1;
                          Example.assigned ".bar" (Num 8);
                          Example.node "[size|big]" 3];
               errors := [Example.numberErrorAt 2]; base := None |};
          foundIndexes := [NaN; Num 8] |}
       ltac:(vm_compute; reflexivity) ltac:(vm_compute; reflexivity)
       ltac:(vm_compute; reflexivity)).
Defined.

(** The scenarios of the specification: a rule for each of the two style
    nodes, one of them with a quoted value, gives no error; a style node
    without a rule gives one error. *)
Example wellFormed_run :
  run Example.wellFormed Example.file Example.twoNodes =
    (Normal tt,
     {| styles := [Example.assigned ".foo" (Num 4);
                   Example.assigned "[state|on]" (Num 5)];
        errors := []; base := None |}).
Proof. reflexivity. Qed.

Example incomplete_run :
  run Example.incomplete Example.file Example.twoNodes =
    (Normal tt,
     {| styles := [Example.assigned ".foo" (Num 4);
                   Example.node "[state|on]" 1];
        errors := [Example.presetErrorFor "[state|on]"]; base := None |}).
Proof. reflexivity. Qed.

(** Indexes are compared as Numbers: 9007199254740993 is not a double and
    parses to 9007199254740992, so the second declaration below repeats the
    index of the first. *)
Example rounded_indexes_collide :
  parseInt "9007199254740993" 10 = Num 9007199254740992 /\
  run
    {| children := [Example.fooIs "9007199254740992";
                    Example.stateIs "9007199254740993"] |}
    Example.file Example.twoNodes =
    (Normal tt,
     {| styles := [Example.assigned ".foo" (Num 9007199254740992);
                   Example.assigned "[state|on]" (Num 9007199254740992)];
        errors := [Example.uniqueErrorAt 5]; base := None |}).
Proof. split; reflexivity. Qed.

(** ** The further properties on the examples *)

Ltac among H :=
  apply list_elem_of_In in H; vm_compute in H;
  repeat (destruct H as [H|H]; [try (injection H; clear H; intros); subst|]);
  try destruct H.

Lemma untargeted_node_witness :
  styles (run Example.wellFormed Example.file Example.fourNodes).2 !! 2%nat
  = Some (Example.node ".bar" 2).
Proof.
  rewrite
    (untargeted_node_is_untouched Example.sourceRange
       Example.getParsedSelectors Example.getStyleTargets tt
       Example.wellFormed Example.file Example.fourNodes 2%nat).
  - reflexivity.
  - intros rule decl sel Hv Hsel. among Hv; among Hsel; vm_compute; discriminate.
Defined.

Lemma last_declaration_witness :
  visits Example.redeclared
  = [(Example.fooIs "4", Example.indexDecl "4" 2)]
    ++ (Example.fooAgain, Example.indexDecl "9" 5) :: [] /\
  (run Example.redeclared Example.file Example.twoNodes).1 = Normal tt /\
  styles (run Example.redeclared Example.file Example.twoNodes).2 !! 0%nat
  = Some (Example.assigned ".foo" (Num 9)).
Proof.
  split; [reflexivity|]. split; [reflexivity|].
  apply
    (last_declaration_wins Example.sourceRange Example.getParsedSelectors
       Example.getStyleTargets tt Example.redeclared Example.file
       Example.twoNodes [(Example.fooIs "4", Example.indexDecl "4" 2)]
       Example.fooAgain (Example.indexDecl "9" 5) []
       (Example.selector ".foo") 0%nat (Example.node ".foo" 0)).
  - reflexivity.
  - reflexivity.
  - left.
  - reflexivity.
  - intros rule decl sel Hv. destruct (not_elem_of_nil _ Hv).
  - reflexivity.
Defined.

Lemma reset_iff_targeted_witness :
  (run Example.incomplete Example.file Example.twoNodes).1 = Normal tt /\
  exists s',
    styles (run Example.incomplete Example.file Example.twoNodes).2 !! 1%nat
    = Some s' /\
    asSource s' = "[state|on]".
Proof.
  split; [reflexivity|].
  destruct
    (reset_iff_targeted Example.sourceRange Example.getParsedSelectors
       Example.getStyleTargets tt Example.incomplete Example.file
       Example.twoNodes 1%nat (Example.node "[state|on]" 1) eq_refl eq_refl)
    as (s' & Hs' & Hsrc & _).
  exists s'. split; assumption.
Defined.


Lemma numbers_of_errors_witness :
  (run Example.twoNonNumeric Example.file Example.twoNodes).1 = Normal tt /\
  (length
     (filter (fun e => message e = MUST_BE_UNIQUE)
        (drop (length (errors Example.twoNodes))
           (errors (run Example.twoNonNumeric Example.file
                      Example.twoNodes).2)))
   + length (remove_dups (declaredIndexes Example.twoNonNumeric))
   = length (visits Example.twoNonNumeric))%nat.
Proof.
  split; [reflexivity|].
  apply
    (numbers_of_validation_errors Example.sourceRange
       Example.getParsedSelectors Example.getStyleTargets tt
       Example.twoNonNumeric Example.file Example.twoNodes eq_refl).
Defined.


Lemma first_unresolved_witness :
  visits Example.aborting
  = [(Example.fooIs "abc", Example.indexDecl "abc" 2)]
    ++ (Example.barAndGhost, Example.indexDecl "8" 3)
       :: [(Example.stateIs "9", Example.indexDecl "9" 5)] /\
  Example.getParsedSelectors Example.barAndGhost
  = [Example.selector ".bar"] ++ Example.selector ".ghost" :: [] /\
  (run Example.aborting Example.file Example.fourNodes).1
  = Throw (noStyleNode ".ghost").
Proof.
  split; [vm_compute; reflexivity|]. split; [reflexivity|].
  apply
    (first_unresolved_selector_is_thrown Example.sourceRange
       Example.getParsedSelectors Example.getStyleTargets tt Example.aborting
       Example.file Example.fourNodes
       [(Example.fooIs "abc", Example.indexDecl "abc" 2)]
       Example.barAndGhost (Example.indexDecl "8" 3)
       [(Example.stateIs "9", Example.indexDecl "9" 5)]
       [Example.selector ".bar"] (Example.selector ".ghost") []).
  - vm_compute. reflexivity.
  - intros rule decl sel Hv Hsel. among Hv; among Hsel. eexists. reflexivity.
  - reflexivity.
  - repeat constructor. eexists. reflexivity.
  - reflexivity.
  - reflexivity.
Defined.
